(** * Spot detection in smFISH images

    A shallow embedding of [bigfish/detection/spot_detection.py]: the
    Laplacian-of-Gaussian / local-maximum spot detector, the
    connected-component filter and the signal-to-noise estimator.

    Conventions of the embedding.
    - A numpy array is a record of its dtype tag, its shape and an accessor
      from index vectors to elements.  Two arrays are compared pointwise on
      the indices of their shape.
    - Every supported pixel type (uint8, uint16, float32, float64) embeds
      exactly, and monotonically, into IEEE binary64, so pixels are kernel
      floats ([PrimFloat.float]) and the dtype tag records how the array was
      stored.  Comparisons are the IEEE ones, NaN included.
    - A Python number is an [int] or a [float]; the code branches on which.
    - A Python exception is the [Err] branch of a result type. *)

From Stdlib Require Import ZArith List Bool Lia Floats.
Import ListNotations.
Local Open Scope Z_scope.

(** ** Results and exceptions *)

Inductive error : Type :=
| InvalidShape      (* check_array: wrong number of dimensions *)
| InvalidDtype      (* check_array: dtype outside the accepted list *)
| InvalidValue      (* check_array: NaN where it is not allowed *)
| TypeError
| ValueError
| IndexError
| RuntimeError
| OverflowError.

Inductive result (A : Type) : Type :=
| Ok (a : A)
| Err (e : error).
Arguments Ok {A} a.
Arguments Err {A} e.

Definition bind {A B : Type} (c : result A) (k : A -> result B) : result B :=
  match c with
  | Ok a => k a
  | Err e => Err e
  end.

Notation "x <- c ;; k" := (bind c (fun x => k))
  (at level 61, c at next level, right associativity).
Notation "' pat <- c ;; k" := (bind c (fun x => match x with pat => k end))
  (at level 61, pat pattern, c at next level, right associativity).

Fixpoint mapM {A B : Type} (f : A -> result B) (l : list A) : result (list B) :=
  match l with
  | [] => Ok []
  | a :: l' => b <- f a ;; bs <- mapM f l' ;; Ok (b :: bs)
  end.

Definition is_validation_error (e : error) : bool :=
  match e with
  | InvalidShape | InvalidDtype | InvalidValue => true
  | _ => false
  end.

(** ** Python and numpy scalars *)

Inductive pynum : Type :=
| PyInt (z : Z)
| PyFloat (f : float).

(** [float(z)]: the binary64 nearest to [z]. *)
Definition float_of_Z (z : Z) : float :=
  SF2Prim (binary_normalize prec emax z 0 false).

Definition to_float (x : pynum) : float :=
  match x with
  | PyInt z => float_of_Z z
  | PyFloat f => f
  end.

Definition py_add (x y : pynum) : pynum :=
  match x, y with
  | PyInt a, PyInt b => PyInt (a + b)
  | _, _ => PyFloat (PrimFloat.add (to_float x) (to_float y))
  end.

Definition py_mul (x y : pynum) : pynum :=
  match x, y with
  | PyInt a, PyInt b => PyInt (a * b)
  | _, _ => PyFloat (PrimFloat.mul (to_float x) (to_float y))
  end.

(** The integer a finite float truncates to (toward zero). *)
Definition SFtrunc (s : bool) (m : positive) (e : Z) : Z :=
  let v := if 0 <=? e then Z.pos m * 2 ^ e else Z.pos m / 2 ^ (- e) in
  if s then - v else v.

(** [int(f)] on a float: truncation toward zero; NaN and the infinities
    raise. *)
Definition int_of_float (f : float) : result Z :=
  match Prim2SF f with
  | S754_zero _ => Ok 0
  | S754_finite s m e => Ok (SFtrunc s m e)
  | S754_infinity _ => Err OverflowError
  | S754_nan => Err ValueError
  end.

Definition py_int (x : pynum) : result Z :=
  match x with
  | PyInt z => Ok z
  | PyFloat f => int_of_float f
  end.

(** ** numpy arrays *)

Inductive np_dtype : Type :=
| np_bool | np_uint8 | np_uint16 | np_int32 | np_int64 | np_float32 | np_float64.

Definition dtype_eqb (a b : np_dtype) : bool :=
  match a, b with
  | np_bool, np_bool | np_uint8, np_uint8 | np_uint16, np_uint16
  | np_int32, np_int32 | np_int64, np_int64
  | np_float32, np_float32 | np_float64, np_float64 => true
  | _, _ => false
  end.

Record ndarray (V : Type) : Type := mk_ndarray {
  dtype : np_dtype;
  shape : list nat;
  item : list Z -> V
}.
Arguments mk_ndarray {V} dtype shape item.
Arguments dtype {V} n.
Arguments shape {V} n.
Arguments item {V} n idx.

Definition ndim {V : Type} (a : ndarray V) : nat := length (shape a).

(** The index vectors of a shape, in row-major (C) order. *)
Fixpoint indices (sh : list nat) : list (list Z) :=
  match sh with
  | [] => [[]]
  | n :: sh' =>
      flat_map (fun i => map (cons (Z.of_nat i)) (indices sh')) (seq 0 n)
  end.

Fixpoint in_boundsb (sh : list nat) (idx : list Z) : bool :=
  match sh, idx with
  | [], [] => true
  | n :: sh', i :: idx' => (0 <=? i) && (i <? Z.of_nat n) && in_boundsb sh' idx'
  | _, _ => false
  end.

(** Elementwise binary operation on two arrays of one shape.  numpy would
    also broadcast two different but compatible shapes; the arrays of this
    module (image, filtered image, masks) share one shape, and the
    statements below that go through this operation say so. *)
Definition arr_zip {A B C : Type} (dt : np_dtype) (f : A -> B -> C)
    (a : ndarray A) (b : ndarray B) : result (ndarray C) :=
  if list_eq_dec Nat.eq_dec (shape a) (shape b)
  then Ok (mk_ndarray dt (shape a) (fun idx => f (item a idx) (item b idx)))
  else Err ValueError.

Definition arr_map {A B : Type} (dt : np_dtype) (f : A -> B) (a : ndarray A)
    : ndarray B :=
  mk_ndarray dt (shape a) (fun idx => f (item a idx)).

(** [image > threshold] against a Python scalar. *)
Definition arr_gt (image : ndarray float) (threshold : pynum) : ndarray bool :=
  arr_map np_bool (fun v => PrimFloat.ltb (to_float threshold) v) image.

(** [np.nonzero] followed by [np.column_stack]: the indices at which a mask
    holds, one row each, in row-major order. *)
Definition nonzero (mask : ndarray bool) : list (list Z) :=
  filter (item mask) (indices (shape mask)).

(** ** Validation: [stack.check_array] *)

(** Modelled from the spec: [stack.check_array] lives in [bigfish.stack],
    which is not among the sources.  The spec (sections 6 and 7) gives its
    contract: the number of dimensions must be one of [ndims]
    (InvalidShape), the dtype one of [dtypes] (InvalidDtype), and NaN must
    be absent unless [allow_nan] (InvalidValue). *)
Definition check_array {V : Type} (nan : V -> bool) (a : ndarray V)
    (ndims : list nat) (dtypes : list np_dtype) (allow_nan : bool)
    : result unit :=
  if negb (existsb (Nat.eqb (ndim a)) ndims) then Err InvalidShape
  else if negb (existsb (dtype_eqb (dtype a)) dtypes) then Err InvalidDtype
  else if negb allow_nan
          && existsb (fun idx => nan (item a idx)) (indices (shape a))
       then Err InvalidValue
  else Ok tt.

Definition image_dtypes : list np_dtype :=
  [np_uint8; np_uint16; np_float32; np_float64].

Definition check_image (image : ndarray float) (allow_nan : bool)
    : result unit :=
  check_array PrimFloat.is_nan image [2; 3]%nat image_dtypes allow_nan.

(** ** [scipy.ndimage.maximum_filter] *)

Inductive filter_mode (V : Type) : Type :=
| Reflect                 (* the default: d c b a | a b c d | d c b a *)
| Constant (cval : V).    (* mode='constant': [cval] outside the array *)
Arguments Reflect {V}.
Arguments Constant {V} cval.

Inductive size_arg : Type :=
| SizeScalar (s : Z)
| SizeSeq (l : list Z).

Definition reflect_index (n : nat) (j : Z) : Z :=
  let m := j mod (2 * Z.of_nat n) in
  if m <? Z.of_nat n then m else 2 * Z.of_nat n - 1 - m.

Fixpoint reflect_all (sh : list nat) (idx : list Z) : list Z :=
  match sh, idx with
  | n :: sh', i :: idx' => reflect_index n i :: reflect_all sh' idx'
  | _, _ => []
  end.

Definition fetch {V : Type} (a : ndarray V) (m : filter_mode V)
    (idx : list Z) : V :=
  match m with
  | Reflect => item a (reflect_all (shape a) idx)
  | Constant cval => if in_boundsb (shape a) idx then item a idx else cval
  end.

(** The offsets a 1-d window of [size] covers around its centre.  An axis
    whose size is at most 1 is left unfiltered by scipy. *)
Definition axis_offsets (size : Z) : list Z :=
  if size <=? 1 then [0]
  else map (fun k => Z.of_nat k - size / 2) (seq 0 (Z.to_nat size)).

Fixpoint window_offsets (sizes : list Z) : list (list Z) :=
  match sizes with
  | [] => [[]]
  | s :: sizes' =>
      flat_map (fun o => map (cons o) (window_offsets sizes')) (axis_offsets s)
  end.

Fixpoint idx_add (idx off : list Z) : list Z :=
  match idx, off with
  | i :: idx', o :: off' => (i + o) :: idx_add idx' off'
  | _, _ => []
  end.

Definition vmax {V : Type} (ltb : V -> V -> bool) (a b : V) : V :=
  if ltb a b then b else a.

Definition maximum {V : Type} (ltb : V -> V -> bool) (d : V) (l : list V) : V :=
  match l with
  | [] => d
  | v :: vs => fold_left (vmax ltb) vs v
  end.

Definition normalize_sequence (size : size_arg) (rank : nat)
    : result (list Z) :=
  match size with
  | SizeScalar s => Ok (repeat s rank)
  | SizeSeq l => if Nat.eqb (length l) rank then Ok l else Err RuntimeError
  end.

Definition window_values {V : Type} (a : ndarray V) (m : filter_mode V)
    (sizes : list Z) (idx : list Z) : list V :=
  map (fun off => fetch a m (idx_add idx off)) (window_offsets sizes).

Definition maximum_filter {V : Type} (ltb : V -> V -> bool) (a : ndarray V)
    (size : size_arg) (m : filter_mode V) : result (ndarray V) :=
  sizes <- normalize_sequence size (ndim a) ;;
  Ok (mk_ndarray (dtype a) (shape a)
        (fun idx => maximum ltb (item a idx) (window_values a m sizes idx))).

(** ** The detector *)

Definition local_maximum_detection (image : ndarray float)
    (minimum_distance : pynum) : result (ndarray bool) :=
  _ <- check_image image false ;;
  kernel_size <- py_int (py_add (py_mul (PyInt 2) minimum_distance) (PyInt 1)) ;;
  image_filtered <- maximum_filter PrimFloat.ltb image (SizeScalar kernel_size)
                      Reflect ;;
  arr_zip np_bool PrimFloat.eqb image image_filtered.

(** ** Spots, sigma and radius *)

(** An int64 array of shape [(length rows, ncols)]: one row of coordinates
    per spot. *)
Record coords : Type := mk_coords {
  ncols : nat;
  rows : list (list Z)
}.

Inductive sigma_t : Type :=
| SigmaScalar (s : pynum)
| SigmaTuple (l : list pynum).

Inductive radius_t : Type :=
| RadiusScalar (r : float)
| RadiusTuple (l : list float).

(** [np.sqrt(image.ndim)] *)
Definition sqrt_ndim {V : Type} (image : ndarray V) : float :=
  PrimFloat.sqrt (float_of_Z (Z.of_nat (ndim image))).

(** The parameters checked by [stack.check_parameter] have, in this
    embedding, types that already are the accepted ones (sigma: number or
    tuple; threshold, minimum_distance, min_intensity_factor: number;
    min_area, min_nb_spots: int), so the check cannot fail and leaves no
    trace below. *)

Definition spots_thresholding (image : ndarray float) (sigma : sigma_t)
    (mask_lm : ndarray bool) (threshold : pynum)
    : result (coords * radius_t * ndarray bool) :=
  _ <- check_image image false ;;
  _ <- check_array (fun _ : bool => false) mask_lm [2; 3]%nat [np_bool] false ;;
  (* remove peak with a low intensity *)
  mask <- arr_zip np_bool andb mask_lm (arr_gt image threshold) ;;
  (* get peak coordinates *)
  let spots := mk_coords (ndim mask) (nonzero mask) in
  (* compute radius *)
  let radius :=
    match sigma with
    | SigmaTuple l =>
        RadiusTuple
          (map (fun sigma_ => PrimFloat.mul (sqrt_ndim image) (to_float sigma_)) l)
    | SigmaScalar s =>
        RadiusScalar (PrimFloat.mul (sqrt_ndim image) (to_float s))
    end in
  Ok (spots, radius, mask).

(** ** Regions *)

(** What [skimage.measure.regionprops] yields for one label. *)
Record region : Type := mk_region {
  region_label : Z;
  area : Z;
  max_intensity : float;
  bbox : list Z
}.

(** Boolean-mask indexing [a[mask]]. *)
Fixpoint compress {A : Type} (mask : list bool) (l : list A) : list A :=
  match mask, l with
  | b :: mask', a :: l' => if b then a :: compress mask' l' else compress mask' l'
  | _, _ => []
  end.

Fixpoint zip_with {A B C : Type} (f : A -> B -> C) (l : list A) (l' : list B)
    : list C :=
  match l, l' with
  | a :: l, b :: l' => f a b :: zip_with f l l'
  | _, _ => []
  end.

(** [spots[:, k]] *)
Definition column (k : nat) (spots : coords) : result (list Z) :=
  if (k <? ncols spots)%nat
  then Ok (map (fun r => nth k r 0) (rows spots))
  else Err IndexError.

Definition unpack6 (box : list Z) : result (Z * Z * Z * Z * Z * Z) :=
  match box with
  | [min_z; min_y; min_x; max_z; max_y; max_x] =>
      Ok (min_z, min_y, min_x, max_z, max_y, max_x)
  | _ => Err ValueError
  end.

(** The six-line mask of the two loops of [filter_cc]. *)
Definition mask_spots_in (spots : coords) (box : list Z) : result (list bool) :=
  '(min_z, min_y, min_x, max_z, max_y, max_x) <- unpack6 box ;;
  c0 <- column 0 spots ;;
  let m := map (fun v => v <=? max_z) c0 in
  c1 <- column 1 spots ;;
  let m := zip_with andb m (map (fun v => v <=? max_y) c1) in
  c2 <- column 2 spots ;;
  let m := zip_with andb m (map (fun v => v <=? max_x) c2) in
  c0 <- column 0 spots ;;
  let m := zip_with andb m (map (fun v => min_z <=? v) c0) in
  c1 <- column 1 spots ;;
  let m := zip_with andb m (map (fun v => min_y <=? v) c1) in
  c2 <- column 2 spots ;;
  let m := zip_with andb m (map (fun v => min_x <=? v) c2) in
  Ok m.

Fixpoint insert_sorted (x : float) (l : list float) : list float :=
  match l with
  | [] => [x]
  | y :: l' => if PrimFloat.leb x y then x :: l else y :: insert_sorted x l'
  end.

Definition sort_floats (l : list float) : list float :=
  fold_right insert_sorted [] l.

(** [np.median]: the middle of the sorted values, the mean of the two middle
    ones for an even count; NaN if a value is NaN or there is none. *)
Definition median (l : list float) : float :=
  if existsb PrimFloat.is_nan l then nan
  else
    let s := sort_floats l in
    let n := length l in
    match n with
    | O => nan
    | _ =>
        if Nat.even n
        then PrimFloat.div
               (PrimFloat.add (nth (n / 2 - 1) s nan) (nth (n / 2) s nan)) 2
        else nth (n / 2) s nan
    end.

Fixpoint foldM {A B : Type} (f : B -> A -> result B) (l : list A) (b : B)
    : result B :=
  match l with
  | [] => Ok b
  | a :: l' => b' <- f b a ;; foldM f l' b'
  end.

(** ** Windows and reductions of the SNR estimator *)

Definition bool_ltb (a b : bool) : bool := negb a && b.

(** [a.max()] *)
Definition np_maximum (a b : float) : float :=
  if PrimFloat.is_nan a then a
  else if PrimFloat.is_nan b then b
  else if PrimFloat.ltb a b then b else a.

Definition arr_max (a : ndarray float) : result float :=
  match map (item a) (indices (shape a)) with
  | [] => Err ValueError
  | v :: vs => Ok (fold_left np_maximum vs v)
  end.

(** Python slice [start:stop] over an axis of length [n]: a negative bound
    counts from the end, and both are clipped to the axis. *)
Definition slice_bound (n i : Z) : Z :=
  if i <? 0 then Z.max 0 (i + n) else Z.min i n.

Definition py_slice (n start stop : Z) : list Z :=
  let a := slice_bound n start in
  let b := slice_bound n stop in
  map (fun k => a + Z.of_nat k) (seq 0 (Z.to_nat (b - a))).

Definition memZ (x : Z) (l : list Z) : bool := existsb (Z.eqb x) l.

Definition non_nan (l : list float) : list float :=
  filter (fun v => negb (PrimFloat.is_nan v)) l.

(** Sum of a list.  numpy adds pairwise; the order of the additions can
    change the last bits of a sum and nothing else. *)
Definition fsum (l : list float) : float := fold_left PrimFloat.add l 0%float.

Definition flen (l : list float) : float := float_of_Z (Z.of_nat (length l)).

(** [np.nanmean] *)
Definition nanmean (l : list float) : float :=
  match non_nan l with
  | [] => nan
  | vs => PrimFloat.div (fsum vs) (flen vs)
  end.

(** [np.nanstd] *)
Definition nanstd (l : list float) : float :=
  match non_nan l with
  | [] => nan
  | vs =>
      let avg := PrimFloat.div (fsum vs) (flen vs) in
      let sq v := let d := PrimFloat.sub v avg in PrimFloat.mul d d in
      PrimFloat.sqrt (PrimFloat.div (fsum (map sq vs)) (flen vs))
  end.

(** [sigma[k]] *)
Definition sigma_item (sigma : sigma_t) (k : nat) : result pynum :=
  match sigma with
  | SigmaScalar _ => Err TypeError
  | SigmaTuple l =>
      match nth_error l k with
      | Some x => Ok x
      | None => Err IndexError
      end
  end.

(** What the caller may hand over as [mask]: Python does not type the
    argument, and [compute_snr] passes the pair returned by [log_lm]. *)
Inductive pyvalue : Type :=
| VArray (m : ndarray bool)
| VTuple (spots : coords) (radius : radius_t).

(** ** The pipeline *)

Section Pipeline.

(** The collaborators the module imports: [stack.log_filter],
    [skimage.measure.label] and [skimage.measure.regionprops]. *)
Variable log_filter : ndarray float -> sigma_t -> bool -> result (ndarray float).
Variable label : ndarray bool -> ndarray Z.
Variable regionprops : ndarray Z -> ndarray float -> list region.

Definition log_lm (image : ndarray float) (sigma : sigma_t)
    (threshold : pynum) (minimum_distance : pynum)
    : result (coords * radius_t) :=
  _ <- check_image image false ;;
  (* cast image in np.float and apply LoG filter *)
  image_filtered <- log_filter image sigma true ;;
  (* find local maximum *)
  mask <- local_maximum_detection image_filtered minimum_distance ;;
  (* remove spots with a low intensity and return coordinates and radius *)
  '(spots, radius, _) <- spots_thresholding image sigma mask threshold ;;
  Ok (spots, radius).

Definition get_cc (image : ndarray float) (threshold : pynum)
    : result (ndarray Z) :=
  _ <- check_image image true ;;
  (* Compute binary mask of the filtered image *)
  let mask := arr_gt image threshold in
  (* find connected components *)
  Ok (label mask).

Definition log_cc (image : ndarray float) (sigma : sigma_t)
    (threshold : pynum) : result (ndarray Z) :=
  _ <- check_image image false ;;
  image_filtered <- log_filter image sigma true ;;
  get_cc image_filtered threshold.

Definition filter_cc (image : ndarray float) (cc : ndarray Z) (spots : coords)
    (min_area min_nb_spots : Z) (min_intensity_factor : pynum)
    : result (list region * coords) :=
  _ <- check_image image true ;;
  _ <- check_array (fun _ : Z => false) cc [2; 3]%nat [np_int64] true ;;
  (* [spots] is a 2-d int64 array by its type *)
  (* get properties of the different connected regions *)
  let regions := regionprops cc image in
  (* get different features of the regions *)
  let area_ := map area regions in
  let intensity := map max_intensity regions in
  let bbox_ := map bbox regions in
  (* keep regions with a minimum size *)
  let big_area := map (fun a => min_area <? a) area_ in
  let regions := compress big_area regions in
  let intensity := compress big_area intensity in
  let bbox_ := compress big_area bbox_ in
  (* case where no region big enough were detected *)
  if (length regions =? 0)%nat
  then Ok ([], mk_coords 2 [])
  else
    (* count spots in the regions *)
    nb_spots_in <-
      mapM (fun box =>
              m <- mask_spots_in spots box ;;
              let spots_in := compress m (rows spots) in
              Ok (Z.of_nat (length spots_in)))
           bbox_ ;;
    (* keep regions with a minimum number of spots *)
    let multiple_spots := map (fun n => min_nb_spots <? n) nb_spots_in in
    (* keep regions which reach a minimum intensity value *)
    let bar := PrimFloat.mul (median intensity) (to_float min_intensity_factor) in
    let high_intensity := map (fun v => PrimFloat.ltb bar v) intensity in
    (* filter regions and labels *)
    let mask := zip_with orb multiple_spots high_intensity in
    let regions_filtered := compress mask regions in
    let bbox_ := compress mask bbox_ in
    (* case where no foci were detected *)
    if (length regions =? 0)%nat
    then Ok (regions_filtered, mk_coords 2 [])
    else
      (* count spots outside the regions *)
      c0 <- column 0 spots ;;
      let ones := map (fun _ => true) c0 in
      mask_spots_out <-
        foldM (fun out box =>
                 m <- mask_spots_in spots box ;;
                 Ok (zip_with andb out (map negb m)))
              bbox_ ones ;;
      let spots_out_region :=
        mk_coords (ncols spots) (compress mask_spots_out (rows spots)) in
      Ok (regions_filtered, spots_out_region).

(** *** Signal-to-noise ratio *)

Definition unpack_spot (row : list Z) : result (Z * Z * Z) :=
  match row with
  | z :: y :: x :: _ => Ok (z, y, x)
  | _ => Err IndexError
  end.

Definition unpack_shape (sh : list nat) : result (Z * Z * Z) :=
  match sh with
  | [max_z; max_y; max_x] => Ok (Z.of_nat max_z, Z.of_nat max_y, Z.of_nat max_x)
  | _ => Err ValueError
  end.

(** [a[sz, sy, sx]] flattened, for three lists of selected indices. *)
Definition block {V : Type} (a : ndarray V) (sz sy sx : list Z) : list V :=
  flat_map (fun z => flat_map (fun y => map (fun x => item a [z; y; x]) sx) sy) sz.

(** The noise window around a spot with its central block blanked: the
    slice of [noise], then NaN written into the sub-slice given in the
    window's own coordinates. *)
Definition local_noise_values (noise : ndarray float)
    (z y x z_radius yx_radius z_neigh yx_neigh max_z max_y max_x : Z)
    : list float :=
  let sz := py_slice max_z (z - z_neigh) (z + z_neigh + 1) in
  let sy := py_slice max_y (y - yx_neigh) (y + yx_neigh + 1) in
  let sx := py_slice max_x (x - yx_neigh) (x + yx_neigh + 1) in
  let len l := Z.of_nat (length l) in
  let pos l := combine (map Z.of_nat (seq 0 (length l))) l in
  let bz := py_slice (len sz) (z_neigh - z_radius) (z_neigh + z_radius + 1) in
  let by_ := py_slice (len sy) (yx_neigh - yx_radius) (yx_neigh + yx_radius + 1) in
  let bx := py_slice (len sx) (yx_neigh - yx_radius) (yx_neigh + yx_radius + 1) in
  flat_map (fun '(i, z') =>
    flat_map (fun '(j, y') =>
      map (fun '(k, x') =>
             if memZ i bz && memZ j by_ && memZ k bx
             then nan
             else item noise [z'; y'; x'])
          (pos sx))
      (pos sy))
    (pos sz).

(** The signal window around a spot, cut from the image. *)
Definition local_signal_values (image : ndarray float)
    (z y x z_radius yx_radius max_z max_y max_x : Z) : list float :=
  block image (py_slice max_z (z - z_radius) (z + z_radius + 1))
              (py_slice max_y (y - yx_radius) (y + yx_radius + 1))
              (py_slice max_x (x - yx_radius) (x + yx_radius + 1)).

(** [noise = image.astype(np.float64); noise[mask_] = np.nan] *)
Definition noise_volume (image : ndarray float) (mask_ : ndarray bool)
    : ndarray float :=
  mk_ndarray np_float64 (shape image)
    (fun idx => if item mask_ idx then nan else item image idx).

(** One turn of the loop over the spots. *)
Definition snr_of_spot (image noise : ndarray float)
    (z_radius yx_radius z_neigh yx_neigh : Z) (row : list Z) : result float :=
  '(z, y, x) <- unpack_spot row ;;
  '(max_z, max_y, max_x) <- unpack_shape (shape image) ;;
  if (z_neigh <=? z) && (z <=? max_z - z_neigh - 1)
     && ((yx_neigh <=? y) && (y <=? max_y - yx_neigh - 1))
     && ((yx_neigh <=? x) && (x <=? max_x - yx_neigh - 1))
  then
    (* extract local signal *)
    let local_signal :=
      local_signal_values image z y x z_radius yx_radius max_z max_y max_x in
    (* extract local noise *)
    let local_noise :=
      local_noise_values noise z y x z_radius yx_radius z_neigh yx_neigh
                         max_z max_y max_x in
    (* compute snr *)
    Ok (PrimFloat.div (nanmean local_signal) (nanstd local_noise))
  else Ok nan.

(** The radius of the spot and of its neighbourhood, in pixels:
    [(z_radius, yx_radius, z_neigh, yx_neigh)]. *)
Definition snr_radii (s : float) (sigma : sigma_t) (neighbor_factor : pynum)
    : result (Z * Z * Z * Z) :=
  sigma0 <- sigma_item sigma 0 ;;
  z_radius <- int_of_float (PrimFloat.mul s (to_float sigma0)) ;;
  sigma1 <- sigma_item sigma 1 ;;
  yx_radius <- int_of_float (PrimFloat.mul s (to_float sigma1)) ;;
  sigma0 <- sigma_item sigma 0 ;;
  z_neigh <- int_of_float
               (PrimFloat.mul (PrimFloat.mul s (to_float sigma0))
                              (to_float neighbor_factor)) ;;
  sigma1 <- sigma_item sigma 1 ;;
  yx_neigh <- int_of_float
                (PrimFloat.mul (PrimFloat.mul s (to_float sigma1))
                               (to_float neighbor_factor)) ;;
  Ok (z_radius, yx_radius, z_neigh, yx_neigh).

(** [mask & (image > threshold)], after a float threshold was scaled by the
    image maximum.  A [mask] that is not an array cannot be combined with
    one: numpy raises (a TypeError or a ValueError, by version). *)
Definition snr_mask (image : ndarray float) (mask : pyvalue)
    (threshold : pynum) : result (ndarray bool) :=
  threshold <-
    match threshold with
    | PyFloat f => m <- arr_max image ;; Ok (PyFloat (PrimFloat.mul f m))
    | PyInt _ => Ok threshold
    end ;;
  match mask with
  | VArray m => arr_zip np_bool andb m (arr_gt image threshold)
  | VTuple _ _ => Err TypeError
  end.

Definition from_threshold_to_snr (image : ndarray float) (sigma : sigma_t)
    (mask : pyvalue) (threshold : pynum) (neighbor_factor : pynum)
    : result (list float) :=
  (* remove peak with a low intensity *)
  mask_ <- snr_mask image mask threshold ;;
  (* no spot detected *)
  if (length (nonzero mask_) =? 0)%nat
  then Ok []
  else
    (* we get the xy coordinate of the detected spot *)
    let spot_coordinates := nonzero mask_ in
    (* compute radius for the spot and the neighborhood *)
    let s := sqrt_ndim image in
    '(z_radius, yx_radius, z_neigh, yx_neigh) <-
      snr_radii s sigma neighbor_factor ;;
    (* we enlarge our mask to localize the complete signal *)
    let kernel_size_z := 2 * z_radius + 1 in
    let kernel_size_yx := 2 * yx_radius + 1 in
    let kernel_size := [kernel_size_z; kernel_size_yx; kernel_size_yx] in
    mask_ <- maximum_filter bool_ltb mask_ (SizeSeq kernel_size)
               (Constant false) ;;
    (* we define a binary matrix of noise *)
    let noise := noise_volume image mask_ in
    mapM (snr_of_spot image noise z_radius yx_radius z_neigh yx_neigh)
         spot_coordinates.

(** [log_lm] is called with three positional arguments, so
    [minimum_distance] lands in its [threshold] parameter and its own
    [minimum_distance] takes the default 1; what it returns, the pair
    [(spots, radius)], is handed on as [mask]. *)
Definition compute_snr (image : ndarray float) (sigma : sigma_t)
    (minimum_distance : pynum) (threshold_signal_detection : pynum)
    (neighbor_factor : pynum) : result (list float) :=
  '(spots, radius) <- log_lm image sigma minimum_distance (PyInt 1) ;;
  from_threshold_to_snr image sigma (VTuple spots radius)
    threshold_signal_detection neighbor_factor.

End Pipeline.

(** ** Vocabulary of the specification *)

Definition in_bounds (sh : list nat) (idx : list Z) : Prop :=
  in_boundsb sh idx = true.

(** [idx'] lies in the hyper-cubic window of half-width [d] centred on
    [idx]. *)
Definition within (d : Z) (idx idx' : list Z) : Prop :=
  Forall2 (fun i i' => Z.abs (i' - i) <= d) idx idx'.

Definition fle (a b : float) : Prop := PrimFloat.leb a b = true.
Definition flt (a b : float) : Prop := PrimFloat.ltb a b = true.

(** The inclusive bounding-box test of the spec, [min <= coord <= max] on
    each of the three axes. *)
Definition in_bbox (box : list Z) (spot : list Z) : bool :=
  match box, spot with
  | [min_z; min_y; min_x; max_z; max_y; max_x], z :: y :: x :: _ =>
      (min_z <=? z) && (z <=? max_z)
      && ((min_y <=? y) && (y <=? max_y))
      && ((min_x <=? x) && (x <=? max_x))
  | _, _ => false
  end.

Definition count_in (spots : coords) (box : list Z) : Z :=
  Z.of_nat (length (filter (in_bbox box) (rows spots))).

(** The intensity bar of [filter_cc] over a list of regions. *)
Definition intensity_bar (regions : list region) (factor : pynum) : float :=
  PrimFloat.mul (median (map max_intensity regions)) (to_float factor).

(** The OR criterion of the spec, section 3. *)
Definition keep_region (spots : coords) (min_nb_spots : Z) (bar : float)
    (r : region) : bool :=
  (min_nb_spots <? count_in spots (bbox r))
  || PrimFloat.ltb bar (max_intensity r).

(** A spot is closer than the noise radius to a face of the volume. *)
Definition near_boundary (sh : list nat) (z_neigh yx_neigh : Z)
    (row : list Z) : Prop :=
  match sh, row with
  | [max_z; max_y; max_x], [z; y; x] =>
      z < z_neigh \/ Z.of_nat max_z - 1 - z < z_neigh
      \/ y < yx_neigh \/ Z.of_nat max_y - 1 - y < yx_neigh
      \/ x < yx_neigh \/ Z.of_nat max_x - 1 - x < yx_neigh
  | _, _ => False
  end.

(** Rounding to the nearest integer, ties to even (Python's [round]). *)
Definition SFround (s : bool) (m : positive) (e : Z) : Z :=
  let v :=
    if 0 <=? e then Z.pos m * 2 ^ e
    else
      let q := Z.pos m / 2 ^ (- e) in
      let r := 2 * (Z.pos m mod 2 ^ (- e)) in
      match r ?= 2 ^ (- e) with
      | Lt => q
      | Gt => q + 1
      | Eq => if Z.even q then q else q + 1
      end in
  if s then - v else v.

Definition round_of_float (f : float) : result Z :=
  match Prim2SF f with
  | S754_zero _ => Ok 0
  | S754_finite s m e => Ok (SFround s m e)
  | S754_infinity _ => Err OverflowError
  | S754_nan => Err ValueError
  end.

(** Neither NaN nor an infinity. *)
Definition float_is_finite (f : float) : bool :=
  match Prim2SF f with
  | S754_zero _ | S754_finite _ _ _ => true
  | _ => false
  end.

(** The regions that pass the area prefilter. *)
Definition area_surviving (regions : list region) (min_area : Z)
    : list region :=
  filter (fun r => min_area <? area r) regions.

(** A rectangular coordinate array with the three columns the region filter
    reads. *)
Definition wf_spots (spots : coords) : Prop :=
  (3 <= ncols spots)%nat
  /\ Forall (fun r => length r = ncols spots) (rows spots).

(** A spot is outside every box of a list. *)
Definition outside_all (boxes : list (list Z)) (row : list Z) : bool :=
  forallb (fun box => negb (in_bbox box row)) boxes.

Definition not_nan (x : float) : Prop := PrimFloat.is_nan x = false.

Definition bounded_offsets (d : Z) (off : list Z) : Prop :=
  Forall (fun o => - d <= o <= d) off.

(** [r] is the integer part of the finite float [(-1)^s * m * 2^e]: the
    integer of the same sign with [|r| <= m * 2^e < |r| + 1]. *)
Definition integer_part_of (s : bool) (m : positive) (e : Z) (r : Z) : Prop :=
  (if s then r <= 0 else 0 <= r)
  /\ if 0 <=? e then Z.abs r = Z.pos m * 2 ^ e
     else Z.abs r * 2 ^ (- e) <= Z.pos m < (Z.abs r + 1) * 2 ^ (- e).

Definition truncates_to (x : float) (r : Z) : Prop :=
  match Prim2SF x with
  | S754_zero _ => r = 0
  | S754_finite s m e => integer_part_of s m e r
  | _ => False
  end.

(** The ratio of the mean of the signal window to the standard deviation
    of the blanked noise window, NaN entries skipped. *)
Definition snr_ratio (image noise : ndarray float)
    (z_radius yx_radius z_neigh yx_neigh max_z max_y max_x z y x : Z) : float :=
  PrimFloat.div
    (nanmean (local_signal_values image z y x z_radius yx_radius
                max_z max_y max_x))
    (nanstd (local_noise_values noise z y x z_radius yx_radius
               z_neigh yx_neigh max_z max_y max_x)).

Section SpecPipeline.

Variable log_filter : ndarray float -> sigma_t -> bool -> result (ndarray float).

(** What the spec says [compute_snr] does: the local-maximum mask of the
    LoG-filtered image goes to [from_threshold_to_snr]. *)
Definition compute_snr_spec (image : ndarray float) (sigma : sigma_t)
    (minimum_distance : pynum) (threshold_signal_detection : pynum)
    (neighbor_factor : pynum) : result (list float) :=
  image_filtered <- log_filter image sigma true ;;
  mask <- local_maximum_detection image_filtered minimum_distance ;;
  from_threshold_to_snr image sigma (VArray mask)
    threshold_signal_detection neighbor_factor.

End SpecPipeline.

(** ** Small arrays to run the code on *)

Definition nth_Z {A : Type} (l : list A) (i : Z) (d : A) : A :=
  if i <? 0 then d else nth (Z.to_nat i) l d.

Definition array2 {V : Type} (dt : np_dtype) (d : V) (data : list (list V))
    : ndarray V :=
  mk_ndarray dt [length data; length (hd [] data)]
    (fun idx =>
       match idx with
       | [i; j] => nth_Z (nth_Z data i []) j d
       | _ => d
       end).

Definition array3 {V : Type} (dt : np_dtype) (d : V)
    (data : list (list (list V))) : ndarray V :=
  mk_ndarray dt
    [length data; length (hd [] data); length (hd [] (hd [] data))]
    (fun idx =>
       match idx with
       | [i; j; k] => nth_Z (nth_Z (nth_Z data i []) j []) k d
       | _ => d
       end).

(** The values of an array in row-major order. *)
Definition ravel {V : Type} (a : ndarray V) : list V :=
  map (item a) (indices (shape a)).

Definition demo_image : ndarray float :=
  array2 np_uint16 0%float [[1; 5; 2]; [5; 5; 0]; [0; 7; 7]]%float.

Definition demo_all_true : ndarray bool :=
  arr_map np_bool (fun _ => true) demo_image.

(** A run of the filter: four labelled regions, seven spots. *)
Definition demo_regions : list region :=
  [ mk_region 1 50 10%float [0; 0; 0; 4; 4; 4];
    mk_region 2 20 100%float [5; 5; 5; 6; 6; 6];
    mk_region 3 30 500%float [7; 7; 7; 9; 9; 9];
    mk_region 4 5 1000%float [8; 0; 0; 8; 1; 1] ].

Definition demo_regionprops (_ : ndarray Z) (_ : ndarray float) : list region :=
  demo_regions.

Definition demo_volume : ndarray float :=
  array3 np_uint16 0%float [[[1; 2]; [3; 4]]; [[5; 6]; [7; 8]]]%float.

Definition demo_labels : ndarray Z :=
  array3 np_int64 0 [[[1; 1]; [0; 0]]; [[0; 2]; [0; 2]]].

Definition demo_spots : coords :=
  mk_coords 3
    [[0; 0; 0]; [1; 1; 1]; [2; 2; 2]; [3; 3; 3]; [4; 4; 4]; [5; 5; 5]; [8; 0; 0]].

(** A 3 x 3 x 3 volume with one bright voxel at its centre, over a varied
    and over a flat background. *)
Definition demo_cube : ndarray float :=
  array3 np_uint16 0%float
    [ [[1; 2; 3]; [4; 5; 6]; [7; 8; 9]];
      [[10; 11; 12]; [13; 5000; 14]; [15; 16; 17]];
      [[18; 19; 20]; [21; 22; 23]; [24; 25; 26]] ]%float.

Definition demo_flat_cube : ndarray float :=
  array3 np_uint16 0%float
    [ [[0; 0; 0]; [0; 0; 0]; [0; 0; 0]];
      [[0; 0; 0]; [0; 5000; 0]; [0; 0; 0]];
      [[0; 0; 0]; [0; 0; 0]; [0; 0; 0]] ]%float.

(** The same voxels stored with a dtype the module does not accept. *)
Definition demo_int32_cube : ndarray float :=
  mk_ndarray np_int32 (shape demo_cube) (item demo_cube).

Definition all_true (a : ndarray float) : ndarray bool :=
  arr_map np_bool (fun _ => true) a.

Definition demo_sigma : sigma_t :=
  SigmaTuple [PyFloat 0.375; PyFloat 0.375].

(** A stand-in for the LoG filter that hands the image back. *)
Definition demo_log_filter (image : ndarray float) (_ : sigma_t) (_ : bool)
    : result (ndarray float) :=
  Ok image.

Definition demo_label (mask : ndarray bool) : ndarray Z :=
  arr_map np_int64 (fun b : bool => if b then 1 else 0) mask.

(** [mask & (image > 10)] on the varied cube: seventeen spots. *)
Definition demo_thresholded : ndarray bool :=
  match snr_mask demo_cube (VArray (all_true demo_cube)) (PyInt 10) with
  | Ok m => m
  | Err _ => all_true demo_cube
  end.

(** ** Vocabulary of the further properties *)

(** No pixel of the window of half-width [d] around [idx] exceeds the pixel
    at [idx]. *)
Definition window_maximum (image : ndarray float) (d : Z) (idx : list Z)
    : Prop :=
  forall idx', in_bounds (shape image) idx' -> within d idx idx' ->
               fle (item image idx') (item image idx).

(** [image == ndi.maximum_filter(image, size=kernel_size)] *)
Definition local_maximum_mask (image : ndarray float) (kernel_size : Z)
    : ndarray bool :=
  mk_ndarray np_bool (shape image)
    (fun idx =>
       PrimFloat.eqb (item image idx)
         (maximum PrimFloat.ltb (item image idx)
            (window_values image Reflect
               (repeat kernel_size (ndim image)) idx))).

(** [mask_lm & (image > threshold)] *)
Definition thresholded_mask (image : ndarray float) (mask_lm : ndarray bool)
    (threshold : pynum) : ndarray bool :=
  mk_ndarray np_bool (shape mask_lm)
    (fun idx => item mask_lm idx && item (arr_gt image threshold) idx).

(** The radius [spots_thresholding] computes. *)
Definition radius_of (image : ndarray float) (sigma : sigma_t) : radius_t :=
  match sigma with
  | SigmaTuple l =>
      RadiusTuple
        (map (fun sigma_ => PrimFloat.mul (sqrt_ndim image) (to_float sigma_)) l)
  | SigmaScalar s =>
      RadiusScalar (PrimFloat.mul (sqrt_ndim image) (to_float s))
  end.

(** What one turn of the loop of [from_threshold_to_snr] appends for a spot
    of a volume of shape [(mz, my, mx)]. *)
Definition spot_snr (image noise : ndarray float)
    (z_radius yx_radius z_neigh yx_neigh : Z) (mz my mx : nat)
    (row : list Z) : float :=
  match row with
  | [z; y; x] =>
      if (z_neigh <=? z) && (z <=? Z.of_nat mz - z_neigh - 1)
         && ((yx_neigh <=? y) && (y <=? Z.of_nat my - yx_neigh - 1))
         && ((yx_neigh <=? x) && (x <=? Z.of_nat mx - yx_neigh - 1))
      then snr_ratio image noise z_radius yx_radius z_neigh yx_neigh
             (Z.of_nat mz) (Z.of_nat my) (Z.of_nat mx) z y x
      else nan
  | _ => nan
  end.

(** Two-dimensional data for the region filter: boxes of four components,
    spots of two columns. *)
Definition demo_regions_2d : list region :=
  [ mk_region 1 50 10%float [0; 0; 4; 4];
    mk_region 2 20 100%float [5; 5; 6; 6] ].

Definition demo_regionprops_2d (_ : ndarray Z) (_ : ndarray float)
    : list region :=
  demo_regions_2d.

Definition demo_spots_2d : coords :=
  mk_coords 2 [[0; 0]; [1; 1]; [5; 5]].

(** A volume without a voxel. *)
Definition demo_empty_cube : ndarray float :=
  mk_ndarray np_uint16 [0; 3; 3]%nat (fun _ => 0%float).

(** The flat 2-d image with a NaN pixel. *)
Definition demo_nan_image : ndarray float :=
  array2 np_float64 0%float [[1; nan; 2]; [3; 4; 5]]%float.

(** * Properties *)

(** ** The error monad *)

Lemma bind_Ok {A B : Type} (c : result A) (k : A -> result B) (b : B) :
  bind c k = Ok b -> exists a, c = Ok a /\ k a = Ok b.
Proof.
  destruct c as [a|e]; simpl; intros H; [exists a; auto | discriminate].
Qed.

Lemma mapM_Ok_map {A B : Type} (f : A -> result B) (g : A -> B) (l : list A) :
  (forall a, In a l -> f a = Ok (g a)) -> mapM f l = Ok (map g l).
Proof.
  induction l as [|a l IH]; simpl; intros H; [reflexivity|].
  rewrite (H a) by auto. simpl. rewrite IH by auto. reflexivity.
Qed.

(** ** Index vectors *)

Lemma in_indices (sh : list nat) (idx : list Z) :
  In idx (indices sh) <-> in_bounds sh idx.
Proof.
  unfold in_bounds. revert idx.
  induction sh as [|n sh IH]; intros idx; simpl.
  - destruct idx; simpl; split; intros H; try discriminate; auto.
    destruct H as [H|[]]; discriminate.
  - rewrite in_flat_map. split.
    + intros (i & Hi & Hin). apply in_map_iff in Hin.
      destruct Hin as (idx' & <- & Hin). apply in_seq in Hi.
      apply IH in Hin. rewrite Hin.
      replace (0 <=? Z.of_nat i) with true by (symmetry; apply Z.leb_le; lia).
      replace (Z.of_nat i <? Z.of_nat n) with true
        by (symmetry; apply Z.ltb_lt; lia).
      reflexivity.
    + destruct idx as [|i idx']; [discriminate|]. intros H.
      apply andb_prop in H. destruct H as [H Hb].
      apply andb_prop in H. destruct H as [H0 Hn].
      apply Z.leb_le in H0. apply Z.ltb_lt in Hn.
      exists (Z.to_nat i). split.
      * apply in_seq. lia.
      * apply in_map_iff. exists idx'. split.
        -- f_equal. lia.
        -- apply IH. exact Hb.
Qed.

Lemma in_bounds_length (sh : list nat) (idx : list Z) :
  in_bounds sh idx -> length idx = length sh.
Proof.
  unfold in_bounds. revert idx.
  induction sh as [|n sh IH]; intros [|i idx]; simpl; try discriminate; auto.
  intros H. apply andb_prop in H. destruct H as [_ H]. f_equal. auto.
Qed.

(** ** The order of the floats that are not NaN *)

Ltac sf_cases :=
  repeat match goal with
  | b : bool |- _ => destruct b
  | |- context [Z.compare ?a ?b] => destruct (Z.compare_spec a b)
  | H : context [Z.compare ?a ?b] |- _ => destruct (Z.compare_spec a b)
  | |- context [Pos.compare_cont Eq ?a ?b] =>
      change (Pos.compare_cont Eq a b) with (Pos.compare a b);
      destruct (Pos.compare_spec a b)
  | H : context [Pos.compare_cont Eq ?a ?b] |- _ =>
      change (Pos.compare_cont Eq a b) with (Pos.compare a b) in H;
      destruct (Pos.compare_spec a b)
  end; simpl in *; try congruence; try lia.

Lemma SFleb_trans (a b c : spec_float) :
  SFleb a b = true -> SFleb b c = true -> SFleb a c = true.
Proof.
  unfold SFleb.
  destruct a, b, c; simpl; intros; try discriminate; sf_cases; auto.
Qed.

Lemma SFeqb_leb (a b : spec_float) : SFeqb a b = SFleb a b && SFleb b a.
Proof.
  unfold SFleb, SFeqb.
  destruct a, b; simpl; intros; try discriminate; sf_cases; auto.
Qed.

Lemma SFltb_leb (a b : spec_float) :
  SFeqb a a = true -> SFeqb b b = true -> SFltb a b = negb (SFleb b a).
Proof.
  unfold SFleb, SFeqb, SFltb.
  destruct a, b; simpl; intros; try discriminate; sf_cases; auto.
Qed.

Lemma not_nan_SF (x : float) :
  not_nan x <-> SFeqb (Prim2SF x) (Prim2SF x) = true.
Proof.
  unfold not_nan, PrimFloat.is_nan. rewrite eqb_spec.
  destruct (SFeqb (Prim2SF x) (Prim2SF x)); simpl; split; congruence.
Qed.

Lemma fle_refl (x : float) : not_nan x -> fle x x.
Proof.
  intros H. apply not_nan_SF in H. unfold fle. rewrite leb_spec.
  rewrite SFeqb_leb in H. apply andb_prop in H. tauto.
Qed.

Lemma fle_trans (x y z : float) : fle x y -> fle y z -> fle x z.
Proof. unfold fle. rewrite !leb_spec. apply SFleb_trans. Qed.

Lemma feqb_iff (x y : float) :
  PrimFloat.eqb x y = true <-> fle x y /\ fle y x.
Proof.
  unfold fle. rewrite eqb_spec, !leb_spec, SFeqb_leb. apply andb_true_iff.
Qed.

Lemma fltb_false (x y : float) :
  not_nan x -> not_nan y -> PrimFloat.ltb x y = false -> fle y x.
Proof.
  intros Hx Hy. apply not_nan_SF in Hx, Hy. unfold fle.
  rewrite ltb_spec, leb_spec, SFltb_leb by assumption.
  destruct (SFleb (Prim2SF y) (Prim2SF x)); simpl; congruence.
Qed.

Lemma fltb_true (x y : float) : PrimFloat.ltb x y = true -> fle x y.
Proof.
  unfold fle. rewrite ltb_spec, leb_spec. unfold SFltb, SFleb.
  destruct (SFcompare (Prim2SF x) (Prim2SF y)) as [[]|]; congruence.
Qed.

(** ** The running maximum *)

Lemma fold_vmax_spec (l : list float) (v : float) :
  not_nan v -> (forall w, In w l -> not_nan w) ->
  let M := fold_left (vmax PrimFloat.ltb) l v in
  not_nan M /\ (M = v \/ In M l) /\ fle v M /\ (forall w, In w l -> fle w M).
Proof.
  revert v. induction l as [|a l IH]; intros v Hv Hl; simpl.
  - repeat split; auto using fle_refl. intros w [].
  - assert (Ha : not_nan a) by (apply Hl; left; reflexivity).
    assert (Hm : not_nan (vmax PrimFloat.ltb v a))
      by (unfold vmax; destruct (PrimFloat.ltb v a); assumption).
    destruct (IH (vmax PrimFloat.ltb v a) Hm) as (HM & Hin & Hle & Hall).
    { intros w Hw. apply Hl. right. exact Hw. }
    assert (Hva : fle v (vmax PrimFloat.ltb v a) /\ fle a (vmax PrimFloat.ltb v a)).
    { unfold vmax. destruct (PrimFloat.ltb v a) eqn:E.
      - split; [apply fltb_true; exact E | apply fle_refl; exact Ha].
      - split; [apply fle_refl; exact Hv | apply fltb_false; assumption]. }
    destruct Hva as [Hv' Ha'].
    repeat split.
    + exact HM.
    + destruct Hin as [Hin|Hin]; [|right; right; exact Hin].
      rewrite Hin. unfold vmax. destruct (PrimFloat.ltb v a); auto.
    + eapply fle_trans; eassumption.
    + intros w [<-|Hw]; [eapply fle_trans; eassumption | apply Hall; exact Hw].
Qed.

(** ** Reflection at the borders *)

Lemma reflect_index_range (n : nat) (j : Z) :
  (0 < n)%nat -> 0 <= reflect_index n j < Z.of_nat n.
Proof.
  intros Hn. unfold reflect_index.
  pose proof (Z.mod_pos_bound j (2 * Z.of_nat n)) as Hm.
  destruct (Z.ltb_spec (j mod (2 * Z.of_nat n)) (Z.of_nat n)); lia.
Qed.

Lemma reflect_index_id (n : nat) (j : Z) :
  0 <= j < Z.of_nat n -> reflect_index n j = j.
Proof.
  intros Hj. unfold reflect_index.
  rewrite Z.mod_small by lia.
  destruct (Z.ltb_spec j (Z.of_nat n)); lia.
Qed.

(** A reflected position stays inside the window it was read from. *)
Lemma reflect_index_near (n : nat) (i j d : Z) :
  0 <= i < Z.of_nat n -> Z.abs (j - i) <= d ->
  Z.abs (reflect_index n j - i) <= d.
Proof.
  intros Hi Hd. unfold reflect_index.
  set (N := 2 * Z.of_nat n).
  assert (HN : 0 < N) by (unfold N; lia).
  pose proof (Z.mod_pos_bound j N HN) as Hm.
  pose proof (Z.div_mod j N ltac:(lia)) as Hq.
  set (q := j / N) in *. set (m := j mod N) in *.
  assert (Hcase : q <= -2 \/ q = -1 \/ q = 0 \/ 1 <= q) by lia.
  destruct (Z.ltb_spec m (Z.of_nat n)) as [Hlt|Hge];
    destruct Hcase as [Hc|[Hc|[Hc|Hc]]]; unfold N in *; try nia.
Qed.

Lemma reflect_all_window (sh : list nat) (idx off : list Z) (d : Z) :
  in_bounds sh idx -> length off = length sh -> bounded_offsets d off ->
  in_bounds sh (reflect_all sh (idx_add idx off))
  /\ within d idx (reflect_all sh (idx_add idx off)).
Proof.
  unfold in_bounds, within, bounded_offsets. revert idx off.
  induction sh as [|n sh IH]; intros [|i idx] [|o off]; simpl;
    try discriminate; intros Hb Hlen Hoff.
  - split; [reflexivity | constructor].
  - apply andb_prop in Hb. destruct Hb as [Hb Hb'].
    apply andb_prop in Hb. destruct Hb as [H0 Hn].
    apply Z.leb_le in H0. apply Z.ltb_lt in Hn.
    inversion Hoff as [|? ? Ho Hoff']; subst.
    destruct (IH idx off Hb' ltac:(lia) Hoff') as [IH1 IH2].
    assert (Hpos : (0 < n)%nat) by lia.
    pose proof (reflect_index_range n (i + o) Hpos) as Hr.
    pose proof (reflect_index_near n i (i + o) d ltac:(lia) ltac:(lia)) as Hnear.
    split.
    + rewrite IH1.
      replace (0 <=? reflect_index n (i + o)) with true
        by (symmetry; apply Z.leb_le; lia).
      replace (reflect_index n (i + o) <? Z.of_nat n) with true
        by (symmetry; apply Z.ltb_lt; lia).
      reflexivity.
    + constructor; assumption.
Qed.

Lemma window_reaches (sh : list nat) (idx idx' : list Z) (d : Z) :
  in_bounds sh idx -> in_bounds sh idx' -> within d idx idx' ->
  exists off, length off = length sh /\ bounded_offsets d off
              /\ reflect_all sh (idx_add idx off) = idx'.
Proof.
  unfold in_bounds, within, bounded_offsets. revert idx idx'.
  induction sh as [|n sh IH]; intros [|i idx] [|i' idx']; simpl;
    try discriminate; intros Hb Hb' Hw.
  - exists []. repeat split; constructor.
  - apply andb_prop in Hb. destruct Hb as [_ Hb].
    apply andb_prop in Hb'. destruct Hb' as [Hr Hb'].
    apply andb_prop in Hr. destruct Hr as [H0 Hn].
    apply Z.leb_le in H0. apply Z.ltb_lt in Hn.
    inversion Hw as [|? ? ? ? Hd Hw']; subst.
    destruct (IH idx idx' Hb Hb' Hw') as (off & Hlen & Hoff & Heq).
    exists ((i' - i) :: off). simpl. repeat split.
    + f_equal. exact Hlen.
    + constructor; [lia | exact Hoff].
    + replace (i + (i' - i)) with i' by lia.
      rewrite reflect_index_id by lia. f_equal. exact Heq.
Qed.

(** ** The window of the maximum filter *)

Lemma axis_offsets_odd (d o : Z) :
  0 <= d -> In o (axis_offsets (2 * d + 1)) <-> - d <= o <= d.
Proof.
  intros Hd. unfold axis_offsets.
  destruct (Z.leb_spec (2 * d + 1) 1) as [Hle|Hgt].
  - simpl. split; [intros [<-|[]]; lia | intros H; left; lia].
  - replace ((2 * d + 1) / 2) with d
      by (apply Z.div_unique with (r := 1); lia).
    rewrite in_map_iff. split.
    + intros (k & <- & Hk). apply in_seq in Hk. lia.
    + intros Ho. exists (Z.to_nat (o + d)). split; [lia|].
      apply in_seq. lia.
Qed.

Lemma in_window_offsets (sizes : list Z) (off : list Z) :
  In off (window_offsets sizes)
  <-> Forall2 (fun s o => In o (axis_offsets s)) sizes off.
Proof.
  revert off. induction sizes as [|s sizes IH]; intros off; simpl.
  - split.
    + intros [<-|[]]. constructor.
    + intros H. inversion H. left. reflexivity.
  - rewrite in_flat_map. split.
    + intros (o & Ho & Hin). apply in_map_iff in Hin.
      destruct Hin as (off' & <- & Hin). constructor; [exact Ho|].
      apply IH. exact Hin.
    + intros H. inversion H as [|? o ? off' Ho Hrest]; subst.
      exists o. split; [exact Ho|]. apply in_map_iff.
      exists off'. split; [reflexivity|]. apply IH. exact Hrest.
Qed.

Lemma in_cubic_window (d : Z) (n : nat) (off : list Z) :
  0 <= d ->
  In off (window_offsets (repeat (2 * d + 1) n))
  <-> length off = n /\ bounded_offsets d off.
Proof.
  intros Hd. rewrite in_window_offsets. unfold bounded_offsets.
  revert off. induction n as [|n IH]; intros off; simpl.
  - split.
    + intros H. inversion H. split; [reflexivity | constructor].
    + intros [Hlen _]. destruct off; [constructor | discriminate].
  - split.
    + intros H. inversion H as [|? o ? off' Ho Hrest]; subst.
      apply IH in Hrest. destruct Hrest as [Hlen Hall]. split.
      * simpl. f_equal. exact Hlen.
      * constructor; [apply axis_offsets_odd; assumption | exact Hall].
    + intros [Hlen Hall]. destruct off as [|o off']; [discriminate|].
      inversion Hall; subst. constructor.
      * apply axis_offsets_odd; assumption.
      * apply IH. split; [simpl in Hlen; lia | assumption].
Qed.

Lemma window_offsets_nonempty (sizes : list Z) : window_offsets sizes <> [].
Proof.
  induction sizes as [|s sizes IH]; simpl; [discriminate|].
  unfold axis_offsets. destruct (s <=? 1) eqn:E.
  - simpl. rewrite app_nil_r. destruct (window_offsets sizes); [tauto|discriminate].
  - apply Z.leb_gt in E. destruct (Z.to_nat s) eqn:Es; [lia|]. simpl.
    destruct (window_offsets sizes); [tauto|discriminate].
Qed.

(** ** Validation *)

Lemma check_array_Ok {V : Type} (nan : V -> bool) (a : ndarray V)
    (ndims : list nat) (dtypes : list np_dtype) :
  check_array nan a ndims dtypes false = Ok tt ->
  existsb (Nat.eqb (ndim a)) ndims = true
  /\ existsb (dtype_eqb (dtype a)) dtypes = true
  /\ forall idx, in_bounds (shape a) idx -> nan (item a idx) = false.
Proof.
  unfold check_array.
  destruct (existsb (Nat.eqb (ndim a)) ndims); simpl; [|discriminate].
  destruct (existsb (dtype_eqb (dtype a)) dtypes); simpl; [|discriminate].
  destruct (existsb (fun idx => nan (item a idx)) (indices (shape a))) eqn:E;
    [discriminate|].
  intros _. repeat split. intros idx Hidx.
  destruct (nan (item a idx)) eqn:En; [|reflexivity].
  rewrite <- E. symmetry. apply existsb_exists. exists idx.
  split; [apply in_indices; exact Hidx | exact En].
Qed.

Lemma check_image_no_nan (image : ndarray float) :
  check_image image false = Ok tt ->
  forall idx, in_bounds (shape image) idx -> not_nan (item image idx).
Proof.
  intros H. apply check_array_Ok in H. destruct H as (_ & _ & H). exact H.
Qed.

Lemma check_array_validation {V : Type} (nan : V -> bool) (a : ndarray V)
    (ndims : list nat) (dtypes : list np_dtype) (allow_nan : bool) (e : error) :
  check_array nan a ndims dtypes allow_nan = Err e ->
  is_validation_error e = true.
Proof.
  unfold check_array.
  repeat match goal with
         | |- context [if ?c then _ else _] => destruct c
         end; intros H; inversion H; reflexivity.
Qed.

(** ** Local maxima *)

Lemma arr_zip_same {A B C : Type} (dt : np_dtype) (f : A -> B -> C)
    (a : ndarray A) (b : ndarray B) :
  shape a = shape b ->
  arr_zip dt f a b
  = Ok (mk_ndarray dt (shape a) (fun idx => f (item a idx) (item b idx))).
Proof.
  intros H. unfold arr_zip.
  destruct (list_eq_dec Nat.eq_dec (shape a) (shape b)); [reflexivity|tauto].
Qed.

(** The maximum filter with reflection, on an image without NaN: the value
    at [idx] bounds every pixel of the window around [idx], and is the value
    of one of them. *)
Lemma maximum_window_spec (image : ndarray float) (d : Z) (idx : list Z) :
  (forall i, in_bounds (shape image) i -> not_nan (item image i)) ->
  0 <= d -> in_bounds (shape image) idx ->
  let M := maximum PrimFloat.ltb (item image idx)
             (window_values image Reflect (repeat (2 * d + 1) (ndim image)) idx) in
  (forall idx', in_bounds (shape image) idx' -> within d idx idx' ->
                fle (item image idx') M)
  /\ exists idx', in_bounds (shape image) idx' /\ within d idx idx'
                  /\ M = item image idx'.
Proof.
  intros Hnan Hd Hidx. unfold window_values.
  pose proof (window_offsets_nonempty (repeat (2 * d + 1) (ndim image))) as Hne.
  assert (Hoffs : forall off,
             In off (window_offsets (repeat (2 * d + 1) (ndim image))) ->
             in_bounds (shape image) (reflect_all (shape image) (idx_add idx off))
             /\ within d idx (reflect_all (shape image) (idx_add idx off))).
  { intros off Hoff. apply in_cubic_window in Hoff; [|assumption].
    destruct Hoff as [Hlen Hb]. apply reflect_all_window; assumption. }
  assert (Hreach : forall idx', in_bounds (shape image) idx' -> within d idx idx' ->
             exists off,
               In off (window_offsets (repeat (2 * d + 1) (ndim image)))
               /\ reflect_all (shape image) (idx_add idx off) = idx').
  { intros idx' Hb' Hw.
    destruct (window_reaches _ _ _ _ Hidx Hb' Hw) as (off & Hlen & Hb & Heq).
    exists off. split; [|exact Heq]. apply in_cubic_window; auto. }
  destruct (window_offsets (repeat (2 * d + 1) (ndim image))) as [|o0 offs];
    [tauto|]. clear Hne. simpl.
  set (f := fun off => item image (reflect_all (shape image) (idx_add idx off))).
  assert (Hf : forall off, In off (o0 :: offs) -> not_nan (f off)).
  { intros off Hoff. apply Hnan. apply Hoffs. exact Hoff. }
  destruct (fold_vmax_spec (map f offs) (f o0)) as (_ & Hin & Hle & Hall).
  { apply Hf. left. reflexivity. }
  { intros w Hw. apply in_map_iff in Hw. destruct Hw as (off & <- & Hoff).
    apply Hf. right. exact Hoff. }
  split.
  - intros idx' Hb' Hw. destruct (Hreach idx' Hb' Hw) as (off & Hoff & Heq).
    destruct Hoff as [<-|Hoff].
    + rewrite <- Heq. exact Hle.
    + rewrite <- Heq. exact (Hall (f off) (in_map f offs off Hoff)).
  - destruct Hin as [Hin|Hin].
    + exists (reflect_all (shape image) (idx_add idx o0)).
      destruct (Hoffs o0 (or_introl eq_refl)) as [H1 H2]. auto.
    + apply in_map_iff in Hin. destruct Hin as (off & Hoff & Hin).
      exists (reflect_all (shape image) (idx_add idx off)).
      destruct (Hoffs off (or_intror Hin)) as [H1 H2]. auto.
Qed.

Lemma within_refl (d : Z) (idx : list Z) : 0 <= d -> within d idx idx.
Proof.
  intros Hd. unfold within. induction idx as [|i idx IH]; constructor; auto.
  rewrite Z.sub_diag. simpl. exact Hd.
Qed.



Example local_maximum_detection_demo :
  match local_maximum_detection demo_image (PyInt 1) with
  | Ok mask => ravel mask
               = [false; true; false; false; false; false; false; true; true]
  | Err _ => False
  end.
Proof. vm_compute. reflexivity. Qed.


(** ** Thresholding *)

Lemma SFltb_not_leb (a b : spec_float) :
  SFltb a b = true -> SFleb b a = false.
Proof.
  unfold SFleb, SFltb.
  destruct a, b; simpl; intros; try discriminate; sf_cases; auto.
Qed.

Lemma flt_not_fle (a b : float) : flt a b -> fle b a -> False.
Proof.
  unfold flt, fle. rewrite ltb_spec, leb_spec. intros H.
  apply SFltb_not_leb in H. congruence.
Qed.

Lemma check_mask_Ok (mask : ndarray bool) (n : nat) :
  dtype mask = np_bool -> ndim mask = n -> (n = 2 \/ n = 3)%nat ->
  check_array (fun _ : bool => false) mask [2; 3]%nat [np_bool] false = Ok tt.
Proof.
  intros Hdt Hn Hcases. unfold check_array. rewrite Hdt, Hn. simpl.
  assert (E : forall l : list (list Z),
             existsb (fun _ => false) l = false) by (induction l; auto).
  rewrite E. destruct Hcases as [-> | ->]; reflexivity.
Qed.

Lemma check_image_ndim (image : ndarray float) (allow_nan : bool) :
  check_image image allow_nan = Ok tt -> (ndim image = 2 \/ ndim image = 3)%nat.
Proof.
  unfold check_image, check_array.
  destruct (existsb (Nat.eqb (ndim image)) [2; 3]%nat) eqn:E; simpl;
    [|discriminate].
  intros _. simpl in E. rewrite orb_false_r in E.
  apply orb_prop in E. destruct E as [E|E]; apply Nat.eqb_eq in E; auto.
Qed.

(** C9.  On a valid image and a boolean mask of its shape,
    [spots_thresholding] returns the conjunction of the mask with
    [image > threshold] and the coordinates at which it holds: every
    returned coordinate addresses a pixel of the image that is strictly
    above the threshold, and no pixel at or below the threshold is
    returned. *)
Theorem spots_thresholding_above (image : ndarray float) (sigma : sigma_t)
    (mask_lm : ndarray bool) (threshold : pynum) :
  check_image image false = Ok tt ->
  dtype mask_lm = np_bool ->
  shape mask_lm = shape image ->
  exists spots radius mask,
    spots_thresholding image sigma mask_lm threshold = Ok (spots, radius, mask)
    /\ shape mask = shape image
    /\ (forall idx,
          item mask idx
          = item mask_lm idx
            && PrimFloat.ltb (to_float threshold) (item image idx))
    /\ rows spots = filter (item mask) (indices (shape image))
    /\ (forall c, In c (rows spots) ->
          in_bounds (shape image) c
          /\ item mask_lm c = true
          /\ flt (to_float threshold) (item image c))
    /\ (forall c, fle (item image c) (to_float threshold) ->
          ~ In c (rows spots)).
Proof.
  intros Hcheck Hdt Hsh.
  unfold spots_thresholding. rewrite Hcheck. simpl.
  rewrite (check_mask_Ok mask_lm (ndim image)); auto;
    [|unfold ndim; rewrite Hsh; reflexivity
     |eapply check_image_ndim; eassumption].
  simpl. rewrite arr_zip_same by (simpl; exact Hsh). simpl.
  do 3 eexists. split; [reflexivity|]. simpl.
  assert (Hin : forall c,
            In c (nonzero
                    (mk_ndarray np_bool (shape mask_lm)
                       (fun idx => item mask_lm idx
                                   && item (arr_gt image threshold) idx))) ->
            in_bounds (shape image) c /\ item mask_lm c = true
            /\ flt (to_float threshold) (item image c)).
  { intros c Hc. unfold nonzero in Hc. simpl in Hc.
    apply filter_In in Hc. destruct Hc as [Hc Hm].
    apply andb_prop in Hm. destruct Hm as [Hm Hgt].
    rewrite Hsh in Hc. apply in_indices in Hc. auto. }
  repeat split.
  - exact Hsh.
  - unfold nonzero. simpl. rewrite Hsh. reflexivity.
  - apply Hin; assumption.
  - apply Hin; assumption.
  - apply Hin; assumption.
  - intros c Hle Hc. apply Hin in Hc. destruct Hc as (_ & _ & Hgt).
    exact (flt_not_fle _ _ Hgt Hle).
Qed.

Example spots_thresholding_demo :
  match spots_thresholding demo_image (SigmaScalar (PyInt 1)) demo_all_true
          (PyInt 5) with
  | Ok (spots, _, _) => rows spots = [[2; 1]; [2; 2]]
  | Err _ => False
  end.
Proof. vm_compute. reflexivity. Qed.

Lemma spots_thresholding_above_witness :
  exists spots radius mask,
    spots_thresholding demo_image (SigmaScalar (PyInt 1)) demo_all_true
      (PyInt 5) = Ok (spots, radius, mask)
    /\ shape mask = shape demo_image
    /\ (forall idx,
          item mask idx
          = item demo_all_true idx
            && PrimFloat.ltb (to_float (PyInt 5)) (item demo_image idx))
    /\ rows spots = filter (item mask) (indices (shape demo_image))
    /\ (forall c, In c (rows spots) ->
          in_bounds (shape demo_image) c
          /\ item demo_all_true c = true
          /\ flt (to_float (PyInt 5)) (item demo_image c))
    /\ (forall c, fle (item demo_image c) (to_float (PyInt 5)) ->
          ~ In c (rows spots)).
Proof.
  apply (spots_thresholding_above demo_image (SigmaScalar (PyInt 1))
           demo_all_true (PyInt 5)); vm_compute; reflexivity.
Defined.

(** ** Boolean masks over lists *)

Lemma compress_map {A B : Type} (f : A -> bool) (g : A -> B) (l : list A) :
  compress (map f l) (map g l) = map g (filter f l).
Proof.
  induction l as [|a l IH]; simpl; [reflexivity|].
  destruct (f a); simpl; rewrite IH; reflexivity.
Qed.

Lemma compress_filter {A : Type} (f : A -> bool) (l : list A) :
  compress (map f l) l = filter f l.
Proof.
  rewrite <- (map_id l) at 2. rewrite compress_map. apply map_id.
Qed.

Lemma zip_with_map {A B C D : Type} (h : B -> C -> D) (f : A -> B)
    (g : A -> C) (l : list A) :
  zip_with h (map f l) (map g l) = map (fun a => h (f a) (g a)) l.
Proof.
  induction l as [|a l IH]; simpl; [reflexivity|]. rewrite IH. reflexivity.
Qed.

(** ** Bounding boxes *)

Lemma column_Ok (k : nat) (spots : coords) :
  (k < ncols spots)%nat ->
  column k spots = Ok (map (fun r => nth k r 0) (rows spots)).
Proof.
  intros Hk. unfold column.
  destruct (Nat.ltb_spec k (ncols spots)); [reflexivity|lia].
Qed.

(** The six masks of the loop add up to the inclusive bounding-box test. *)
Lemma mask_spots_in_bbox (spots : coords) (box : list Z) :
  wf_spots spots -> length box = 6%nat ->
  mask_spots_in spots box = Ok (map (in_bbox box) (rows spots)).
Proof.
  intros [Hn Hwf] Hbox.
  destruct box as [|min_z [|min_y [|min_x [|max_z [|max_y [|max_x [|]]]]]]];
    try discriminate.
  unfold mask_spots_in. simpl unpack6. cbv beta iota zeta delta [bind].
  rewrite !column_Ok by lia. cbv beta iota zeta.
  rewrite !map_map, !zip_with_map. f_equal.
  apply map_ext_in. intros r Hr.
  rewrite Forall_forall in Hwf. specialize (Hwf r Hr).
  destruct r as [|z [|y [|x r]]]; simpl in Hwf; try lia.
  simpl.
  destruct (z <=? max_z), (y <=? max_y), (x <=? max_x),
           (min_z <=? z), (min_y <=? y), (min_x <=? x); reflexivity.
Qed.

Lemma count_spots_in (spots : coords) (boxes : list (list Z)) :
  wf_spots spots -> Forall (fun box => length box = 6%nat) boxes ->
  mapM (fun box =>
          m <- mask_spots_in spots box ;;
          Ok (Z.of_nat (length (compress m (rows spots)))))
       boxes
  = Ok (map (count_in spots) boxes).
Proof.
  intros Hwf Hboxes. apply mapM_Ok_map. intros box Hbox.
  rewrite Forall_forall in Hboxes.
  rewrite mask_spots_in_bbox by auto. simpl.
  rewrite compress_filter. reflexivity.
Qed.

Lemma mask_spots_out_fold (spots : coords) (boxes : list (list Z))
    (g : list Z -> bool) :
  wf_spots spots -> Forall (fun box => length box = 6%nat) boxes ->
  foldM (fun out box =>
           m <- mask_spots_in spots box ;;
           Ok (zip_with andb out (map negb m)))
        boxes (map g (rows spots))
  = Ok (map (fun row => g row && outside_all boxes row) (rows spots)).
Proof.
  intros Hwf Hboxes. revert g.
  induction Hboxes as [|box boxes Hbox _ IH]; intros g; simpl.
  - f_equal. apply map_ext. intros row. rewrite andb_true_r. reflexivity.
  - rewrite mask_spots_in_bbox by assumption. simpl.
    rewrite map_map, zip_with_map. rewrite IH. f_equal.
    apply map_ext. intros row. rewrite andb_assoc. reflexivity.
Qed.

(** ** The region filter *)

Section FilterCC.

Variable regionprops : ndarray Z -> ndarray float -> list region.
Variables (image : ndarray float) (cc : ndarray Z) (spots : coords).
Variables (min_area min_nb_spots : Z) (min_intensity_factor : pynum).

Hypothesis image_ok : check_image image true = Ok tt.
Hypothesis cc_ok :
  check_array (fun _ : Z => false) cc [2; 3]%nat [np_int64] true = Ok tt.

(** The early return: no region is big enough. *)
Lemma filter_cc_no_big_region :
  area_surviving (regionprops cc image) min_area = [] ->
  filter_cc regionprops image cc spots min_area min_nb_spots
    min_intensity_factor
  = Ok ([], mk_coords 2 []).
Proof.
  intros Hnone. unfold filter_cc. rewrite image_ok, cc_ok. simpl.
  rewrite map_map, compress_filter.
  change (filter (fun r => min_area <? area r) (regionprops cc image))
    with (area_surviving (regionprops cc image) min_area).
  rewrite Hnone. reflexivity.
Qed.

(** Past the early return: the kept regions and the spots outside them. *)
Lemma filter_cc_main :
  wf_spots spots ->
  Forall (fun r => length (bbox r) = 6%nat) (regionprops cc image) ->
  area_surviving (regionprops cc image) min_area <> [] ->
  filter_cc regionprops image cc spots min_area min_nb_spots
    min_intensity_factor
  = Ok (filter
          (keep_region spots min_nb_spots
             (intensity_bar (area_surviving (regionprops cc image) min_area)
                min_intensity_factor))
          (area_surviving (regionprops cc image) min_area),
        mk_coords (ncols spots)
          (filter
             (outside_all
                (map bbox
                   (filter
                      (keep_region spots min_nb_spots
                         (intensity_bar
                            (area_surviving (regionprops cc image) min_area)
                            min_intensity_factor))
                      (area_surviving (regionprops cc image) min_area))))
             (rows spots))).
Proof.
  intros Hwf Hbox Hsome.
  set (big := area_surviving (regionprops cc image) min_area) in *.
  set (bar := intensity_bar big min_intensity_factor).
  set (kept := filter (keep_region spots min_nb_spots bar) big).
  unfold filter_cc. rewrite image_ok, cc_ok. simpl.
  rewrite !map_map, compress_filter.
  rewrite (compress_map (fun r => min_area <? area r) max_intensity).
  rewrite (compress_map (fun r => min_area <? area r) bbox).
  change (filter (fun r => min_area <? area r) (regionprops cc image))
    with big.
  assert (Hbig : Forall (fun r => length (bbox r) = 6%nat) big).
  { rewrite Forall_forall in *. intros r Hr. apply Hbox.
    unfold big, area_surviving in Hr. apply filter_In in Hr. tauto. }
  destruct (Nat.eqb_spec (length big) 0) as [E|_].
  { destruct big; [tauto|discriminate]. }
  rewrite (count_spots_in spots (map bbox big) Hwf)
    by (rewrite Forall_map; exact Hbig).
  simpl. rewrite !map_map.
  rewrite (zip_with_map orb
             (fun r => min_nb_spots <? count_in spots (bbox r))
             (fun r => PrimFloat.ltb
                         (PrimFloat.mul (median (map max_intensity big))
                            (to_float min_intensity_factor))
                         (max_intensity r))).
  change (fun a : region =>
            (min_nb_spots <? count_in spots (bbox a))
            || PrimFloat.ltb
                 (PrimFloat.mul (median (map max_intensity big))
                    (to_float min_intensity_factor))
                 (max_intensity a))
    with (keep_region spots min_nb_spots bar).
  rewrite compress_filter, compress_map. fold kept.
  destruct Hwf as [Hn Hrows].
  rewrite column_Ok by lia. simpl. rewrite map_map.
  rewrite (mask_spots_out_fold spots (map bbox kept) (fun _ => true)).
  - simpl. rewrite compress_filter. reflexivity.
  - split; assumption.
  - rewrite Forall_map. rewrite Forall_forall in *. intros r Hr.
    apply Hbig. unfold kept in Hr. apply filter_In in Hr. tauto.
Qed.

End FilterCC.

Example filter_cc_demo :
  filter_cc demo_regionprops demo_volume demo_labels demo_spots 10 2 (PyInt 2)
  = Ok ([ mk_region 1 50 10%float [0; 0; 0; 4; 4; 4];
          mk_region 3 30 500%float [7; 7; 7; 9; 9; 9] ],
        mk_coords 3 [[5; 5; 5]; [8; 0; 0]]).
Proof. vm_compute. reflexivity. Qed.

Lemma keep_region_iff (spots : coords) (min_nb_spots : Z) (bar : float)
    (R : region) :
  keep_region spots min_nb_spots bar R = true <->
  min_nb_spots < count_in spots (bbox R) \/ flt bar (max_intensity R).
Proof.
  unfold keep_region, flt. rewrite orb_true_iff, Z.ltb_lt. tauto.
Qed.

Lemma in_area_surviving (regions : list region) (min_area : Z) (R : region) :
  In R (area_surviving regions min_area) <-> In R regions /\ min_area < area R.
Proof.
  unfold area_surviving. rewrite filter_In, Z.ltb_lt. tauto.
Qed.

(** C3.  On three-dimensional data [filter_cc] returns, and the regions it
    keeps are those of the area-surviving regions ([area > min_area]) that
    have more than [min_nb_spots] spots in their bounding box or whose
    maximal intensity exceeds the median of the maximal intensities of the
    area-surviving regions times [min_intensity_factor]; a region with
    [area <= min_area] is never kept. *)
Theorem filter_cc_keeps_or
    (regionprops : ndarray Z -> ndarray float -> list region)
    (image : ndarray float) (cc : ndarray Z) (spots : coords)
    (min_area min_nb_spots : Z) (min_intensity_factor : pynum) :
  check_image image true = Ok tt ->
  check_array (fun _ : Z => false) cc [2; 3]%nat [np_int64] true = Ok tt ->
  wf_spots spots ->
  Forall (fun r => length (bbox r) = 6%nat) (regionprops cc image) ->
  exists kept out,
    filter_cc regionprops image cc spots min_area min_nb_spots
      min_intensity_factor = Ok (kept, out)
    /\ kept
       = filter
           (keep_region spots min_nb_spots
              (PrimFloat.mul
                 (median
                    (map max_intensity
                       (area_surviving (regionprops cc image) min_area)))
                 (to_float min_intensity_factor)))
           (area_surviving (regionprops cc image) min_area)
    /\ (forall R, In R (regionprops cc image) -> min_area < area R ->
          (In R kept <->
           min_nb_spots < count_in spots (bbox R)
           \/ flt (PrimFloat.mul
                     (median
                        (map max_intensity
                           (area_surviving (regionprops cc image) min_area)))
                     (to_float min_intensity_factor))
                  (max_intensity R)))
    /\ (forall R, area R <= min_area -> ~ In R kept).
Proof.
  intros Himg Hcc Hwf Hbox.
  change (PrimFloat.mul
            (median
               (map max_intensity
                  (area_surviving (regionprops cc image) min_area)))
            (to_float min_intensity_factor))
    with (intensity_bar (area_surviving (regionprops cc image) min_area)
            min_intensity_factor).
  set (big := area_surviving (regionprops cc image) min_area).
  set (bar := intensity_bar big min_intensity_factor).
  assert (Hkept : forall R, In R (filter (keep_region spots min_nb_spots bar) big)
                            -> In R big).
  { intros R HR. apply filter_In in HR. tauto. }
  assert (Hres : exists out,
             filter_cc regionprops image cc spots min_area min_nb_spots
               min_intensity_factor
             = Ok (filter (keep_region spots min_nb_spots bar) big, out)).
  { destruct big as [|r0 big'] eqn:Ebig.
    - exists (mk_coords 2 []). apply filter_cc_no_big_region; assumption.
    - eexists. rewrite <- Ebig. unfold bar. rewrite <- Ebig.
      apply filter_cc_main; try assumption.
      fold big. rewrite Ebig. discriminate. }
  destruct Hres as [out Hres].
  exists (filter (keep_region spots min_nb_spots bar) big), out.
  split; [exact Hres|]. split; [reflexivity|]. split.
  - intros R HR Harea. rewrite filter_In, keep_region_iff.
    assert (In R big) by (apply in_area_surviving; auto). tauto.
  - intros R Harea HR. apply Hkept, in_area_surviving in HR. lia.
Qed.

Lemma filter_cc_keeps_or_witness :
  exists kept out,
    filter_cc demo_regionprops demo_volume demo_labels demo_spots 10 2
      (PyInt 2) = Ok (kept, out)
    /\ kept
       = filter
           (keep_region demo_spots 2
              (PrimFloat.mul
                 (median
                    (map max_intensity
                       (area_surviving
                          (demo_regionprops demo_labels demo_volume) 10)))
                 (to_float (PyInt 2))))
           (area_surviving (demo_regionprops demo_labels demo_volume) 10)
    /\ (forall R, In R (demo_regionprops demo_labels demo_volume) ->
          10 < area R ->
          (In R kept <->
           2 < count_in demo_spots (bbox R)
           \/ flt (PrimFloat.mul
                     (median
                        (map max_intensity
                           (area_surviving
                              (demo_regionprops demo_labels demo_volume) 10)))
                     (to_float (PyInt 2)))
                  (max_intensity R)))
    /\ (forall R, area R <= 10 -> ~ In R kept).
Proof.
  apply (filter_cc_keeps_or demo_regionprops demo_volume demo_labels
           demo_spots 10 2 (PyInt 2)).
  - vm_compute. reflexivity.
  - vm_compute. reflexivity.
  - split; [simpl; lia | repeat constructor].
  - repeat constructor.
Defined.

(** C2.  With every region at or below [min_area] the function returns at
    once, with no region and with an empty (0, 2) array of spots: the seven
    spots handed in are not returned. *)
Theorem filter_cc_small_regions_lose_spots :
  area_surviving (demo_regionprops demo_labels demo_volume) 1000 = []
  /\ filter_cc demo_regionprops demo_volume demo_labels demo_spots 1000 2
       (PyInt 2) = Ok ([], mk_coords 2 [])
  /\ length (rows demo_spots) = 7%nat.
Proof. vm_compute. repeat split. Qed.

(** C4.  On the same run no region is kept, so the spot (8, 0, 0) lies in
    the bounding box of no kept region; it is nevertheless absent from the
    spots reported outside. *)
Theorem filter_cc_outside_spot_missing :
  exists kept out,
    filter_cc demo_regionprops demo_volume demo_labels demo_spots 1000 2
      (PyInt 2) = Ok (kept, out)
    /\ In [8; 0; 0] (rows demo_spots)
    /\ outside_all (map bbox kept) [8; 0; 0] = true
    /\ ~ In [8; 0; 0] (rows out).
Proof.
  exists [], (mk_coords 2 []). repeat split.
  - vm_compute. auto 10.
  - intros [].
Qed.

(** Past the area prefilter the spots reported outside are the spots that
    lie in the bounding box of no kept region, in their original order. *)
Lemma filter_cc_spots_outside
    (regionprops : ndarray Z -> ndarray float -> list region)
    (image : ndarray float) (cc : ndarray Z) (spots : coords)
    (min_area min_nb_spots : Z) (min_intensity_factor : pynum) :
  check_image image true = Ok tt ->
  check_array (fun _ : Z => false) cc [2; 3]%nat [np_int64] true = Ok tt ->
  wf_spots spots ->
  Forall (fun r => length (bbox r) = 6%nat) (regionprops cc image) ->
  area_surviving (regionprops cc image) min_area <> [] ->
  exists kept out,
    filter_cc regionprops image cc spots min_area min_nb_spots
      min_intensity_factor = Ok (kept, out)
    /\ ncols out = ncols spots
    /\ rows out = filter (outside_all (map bbox kept)) (rows spots)
    /\ (forall s, In s (rows out) <->
          In s (rows spots)
          /\ forall R, In R kept -> in_bbox (bbox R) s = false).
Proof.
  intros Himg Hcc Hwf Hbox Hsome.
  do 2 eexists. split.
  - apply (filter_cc_main regionprops image cc spots min_area min_nb_spots
             min_intensity_factor Himg Hcc Hwf Hbox Hsome).
  - simpl. repeat split.
    + apply filter_In in H. tauto.
    + apply filter_In in H. destruct H as [_ H]. unfold outside_all in H.
      rewrite forallb_forall in H. intros R HR.
      specialize (H (bbox R) (in_map bbox _ R HR)).
      destruct (in_bbox (bbox R) s); [discriminate|reflexivity].
    + intros [Hs Hall]. apply filter_In. split; [exact Hs|].
      unfold outside_all. apply forallb_forall. intros box Hb.
      apply in_map_iff in Hb. destruct Hb as (R & <- & HR).
      rewrite (Hall R HR). reflexivity.
Qed.

(** ** The radii of the SNR estimator *)

Lemma SFtrunc_integer_part (s : bool) (m : positive) (e : Z) :
  integer_part_of s m e (SFtrunc s m e).
Proof.
  unfold integer_part_of, SFtrunc.
  destruct (Z.leb_spec 0 e) as [He|He].
  - assert (0 <= Z.pos m * 2 ^ e) by (apply Z.mul_nonneg_nonneg; lia).
    destruct s; split; lia.
  - assert (Hp : 0 < 2 ^ (- e)) by (apply Z.pow_pos_nonneg; lia).
    pose proof (Z.mul_div_le (Z.pos m) (2 ^ (- e)) Hp) as Hlo.
    pose proof (Z.mul_succ_div_gt (Z.pos m) (2 ^ (- e)) Hp) as Hhi.
    assert (Hq : 0 <= Z.pos m / 2 ^ (- e)) by (apply Z.div_pos; lia).
    destruct s; split; lia.
Qed.

Lemma int_of_float_truncates (x : float) :
  float_is_finite x = true ->
  exists r, int_of_float x = Ok r /\ truncates_to x r.
Proof.
  unfold float_is_finite, int_of_float, truncates_to.
  destruct (Prim2SF x) as [s|s| |s m e]; try discriminate; intros _.
  - exists 0. auto.
  - exists (SFtrunc s m e). split; [reflexivity|].
    apply SFtrunc_integer_part.
Qed.

(** Against C6 as stated.  At sigma 1 in three dimensions the signal radius
    is 1 although
    sqrt(3) = 1.73... rounds to 2, and at neighbour factor 1.5 the noise radius
    is 2 although 2.59... rounds to 3. *)
Lemma snr_radii_not_rounded :
  snr_radii (sqrt_ndim demo_cube) (SigmaTuple [PyFloat 1; PyFloat 1])
    (PyFloat 1.5) = Ok (1, 1, 2, 2)
  /\ round_of_float (PrimFloat.mul (sqrt_ndim demo_cube) 1) = Ok 2
  /\ round_of_float
       (PrimFloat.mul (PrimFloat.mul (sqrt_ndim demo_cube) 1) 1.5) = Ok 3.
Proof. vm_compute. repeat split. Qed.

(** C6, as amended.  The signal radius of an axis is
    [int(sqrt(ndim) * sigma_axis)] and the noise radius
    [int(sqrt(ndim) * sigma_axis * neighbor_factor)], where [int] cuts the
    product to its integer part (toward zero) and does not round it. *)
Theorem snr_radii_truncate (s : float) (sigma0 sigma1 : pynum)
    (rest : list pynum) (neighbor_factor : pynum) :
  float_is_finite (PrimFloat.mul s (to_float sigma0)) = true ->
  float_is_finite (PrimFloat.mul s (to_float sigma1)) = true ->
  float_is_finite
    (PrimFloat.mul (PrimFloat.mul s (to_float sigma0))
       (to_float neighbor_factor)) = true ->
  float_is_finite
    (PrimFloat.mul (PrimFloat.mul s (to_float sigma1))
       (to_float neighbor_factor)) = true ->
  exists z_radius yx_radius z_neigh yx_neigh,
    snr_radii s (SigmaTuple (sigma0 :: sigma1 :: rest)) neighbor_factor
    = Ok (z_radius, yx_radius, z_neigh, yx_neigh)
    /\ truncates_to (PrimFloat.mul s (to_float sigma0)) z_radius
    /\ truncates_to (PrimFloat.mul s (to_float sigma1)) yx_radius
    /\ truncates_to
         (PrimFloat.mul (PrimFloat.mul s (to_float sigma0))
            (to_float neighbor_factor)) z_neigh
    /\ truncates_to
         (PrimFloat.mul (PrimFloat.mul s (to_float sigma1))
            (to_float neighbor_factor)) yx_neigh.
Proof.
  intros H0 H1 H2 H3.
  destruct (int_of_float_truncates _ H0) as (zr & Ezr & Tzr).
  destruct (int_of_float_truncates _ H1) as (yxr & Eyxr & Tyxr).
  destruct (int_of_float_truncates _ H2) as (zn & Ezn & Tzn).
  destruct (int_of_float_truncates _ H3) as (yxn & Eyxn & Tyxn).
  exists zr, yxr, zn, yxn. unfold snr_radii. simpl.
  rewrite Ezr. simpl. rewrite Eyxr. simpl. rewrite Ezn. simpl.
  rewrite Eyxn. simpl. auto.
Qed.

Lemma snr_radii_truncate_witness :
  exists z_radius yx_radius z_neigh yx_neigh,
    snr_radii (sqrt_ndim demo_cube)
      (SigmaTuple (PyFloat 1 :: PyFloat 1 :: [])) (PyFloat 1.5)
    = Ok (z_radius, yx_radius, z_neigh, yx_neigh)
    /\ truncates_to
         (PrimFloat.mul (sqrt_ndim demo_cube) (to_float (PyFloat 1))) z_radius
    /\ truncates_to
         (PrimFloat.mul (sqrt_ndim demo_cube) (to_float (PyFloat 1))) yx_radius
    /\ truncates_to
         (PrimFloat.mul
            (PrimFloat.mul (sqrt_ndim demo_cube) (to_float (PyFloat 1)))
            (to_float (PyFloat 1.5))) z_neigh
    /\ truncates_to
         (PrimFloat.mul
            (PrimFloat.mul (sqrt_ndim demo_cube) (to_float (PyFloat 1)))
            (to_float (PyFloat 1.5))) yx_neigh.
Proof.
  apply (snr_radii_truncate (sqrt_ndim demo_cube) (PyFloat 1) (PyFloat 1) []
           (PyFloat 1.5)); vm_compute; reflexivity.
Defined.

(** ** Validation at the entry points *)

Lemma check_image_strict (image : ndarray float) (e : error) :
  check_image image false = Err e -> e <> InvalidValue ->
  check_image image true = Err e.
Proof.
  unfold check_image, check_array.
  destruct (negb (existsb (Nat.eqb (ndim image)) [2; 3]%nat)); [auto|].
  destruct (negb (existsb (dtype_eqb (dtype image)) image_dtypes)); [auto|].
  simpl.
  destruct (existsb (fun idx => PrimFloat.is_nan (item image idx))
              (indices (shape image)));
    intros H; inversion H; congruence.
Qed.

(** Against C5 as stated.  [from_threshold_to_snr] runs on an array whose
    dtype every checked entry point rejects, and returns a ratio for its
    spot. *)
Lemma from_threshold_to_snr_unchecked :
  check_image demo_int32_cube false = Err InvalidDtype
  /\ from_threshold_to_snr demo_int32_cube demo_sigma
       (VArray (all_true demo_int32_cube)) (PyInt 2000) (PyInt 3)
     = Ok [PrimFloat.div 5000 7.5].
Proof. vm_compute. split; reflexivity. Qed.

(** C5, as amended.  An image that fails validation makes [log_lm],
    [local_maximum_detection], [spots_thresholding], [log_cc] and
    [compute_snr] (through [log_lm], its first call) return the validation
    error, whatever the other arguments and the collaborators are; [get_cc]
    and [filter_cc] do the same except that they let NaN through.
    [from_threshold_to_snr] is not among them: it checks nothing. *)
Theorem entry_points_validate
    (log_filter : ndarray float -> sigma_t -> bool -> result (ndarray float))
    (label : ndarray bool -> ndarray Z)
    (regionprops : ndarray Z -> ndarray float -> list region)
    (image : ndarray float) (sigma : sigma_t)
    (threshold minimum_distance neighbor_factor : pynum)
    (mask_lm : ndarray bool) (cc : ndarray Z) (spots : coords)
    (min_area min_nb_spots : Z) (min_intensity_factor : pynum) (e : error) :
  check_image image false = Err e ->
  is_validation_error e = true
  /\ log_lm log_filter image sigma threshold minimum_distance = Err e
  /\ local_maximum_detection image minimum_distance = Err e
  /\ spots_thresholding image sigma mask_lm threshold = Err e
  /\ log_cc log_filter label image sigma threshold = Err e
  /\ compute_snr log_filter image sigma minimum_distance threshold
       neighbor_factor = Err e
  /\ (e <> InvalidValue ->
      get_cc label image threshold = Err e
      /\ filter_cc regionprops image cc spots min_area min_nb_spots
           min_intensity_factor = Err e).
Proof.
  intros H. split; [eapply check_array_validation; exact H|].
  unfold log_lm, local_maximum_detection, spots_thresholding, log_cc,
    compute_snr, log_lm, get_cc, filter_cc.
  rewrite H. simpl. repeat split; try reflexivity;
    rewrite (check_image_strict image e H) by assumption; reflexivity.
Qed.

Lemma entry_points_validate_witness :
  is_validation_error InvalidDtype = true
  /\ log_lm demo_log_filter demo_int32_cube demo_sigma (PyInt 2000) (PyInt 1)
     = Err InvalidDtype
  /\ local_maximum_detection demo_int32_cube (PyInt 1) = Err InvalidDtype
  /\ spots_thresholding demo_int32_cube demo_sigma
       (all_true demo_int32_cube) (PyInt 2000) = Err InvalidDtype
  /\ log_cc demo_log_filter demo_label demo_int32_cube demo_sigma (PyInt 2000)
     = Err InvalidDtype
  /\ compute_snr demo_log_filter demo_int32_cube demo_sigma (PyInt 1)
       (PyInt 2000) (PyInt 3) = Err InvalidDtype
  /\ (InvalidDtype <> InvalidValue ->
      get_cc demo_label demo_int32_cube (PyInt 2000) = Err InvalidDtype
      /\ filter_cc demo_regionprops demo_int32_cube demo_labels demo_spots
           10 2 (PyInt 2) = Err InvalidDtype).
Proof.
  apply (entry_points_validate demo_log_filter demo_label demo_regionprops
           demo_int32_cube demo_sigma (PyInt 2000) (PyInt 1) (PyInt 3)
           (all_true demo_int32_cube) demo_labels demo_spots 10 2 (PyInt 2)
           InvalidDtype).
  vm_compute. reflexivity.
Defined.

(** ** [compute_snr] *)

(** Whatever it is given, [compute_snr] raises: either [log_lm] does, or
    the pair it returns meets [image > threshold] under [&]. *)
Lemma compute_snr_raises
    (log_filter : ndarray float -> sigma_t -> bool -> result (ndarray float))
    (image : ndarray float) (sigma : sigma_t)
    (minimum_distance threshold neighbor_factor : pynum) :
  exists e,
    compute_snr log_filter image sigma minimum_distance threshold
      neighbor_factor = Err e.
Proof.
  unfold compute_snr.
  destruct (log_lm log_filter image sigma minimum_distance (PyInt 1))
    as [[spots radius]|e]; simpl; [|eauto].
  unfold from_threshold_to_snr, snr_mask.
  destruct threshold as [z|f]; simpl; [eauto|].
  destruct (arr_max image); simpl; eauto.
Qed.

(** C1.  On a valid volume [compute_snr] raises where the composition the
    spec describes returns the ratio of the one spot: the third argument of
    its call to [log_lm] is the minimum distance, taken there as the
    threshold, and the result handed on as the mask is the pair of spots
    and radius. *)
Theorem compute_snr_hands_spots_as_mask :
  check_image demo_cube false = Ok tt
  /\ log_lm demo_log_filter demo_cube demo_sigma (PyInt 1) (PyInt 1)
     = Ok (mk_coords 3 [[1; 1; 1]],
           RadiusTuple [PrimFloat.mul (sqrt_ndim demo_cube) 0.375;
                        PrimFloat.mul (sqrt_ndim demo_cube) 0.375])
  /\ compute_snr demo_log_filter demo_cube demo_sigma (PyInt 1) (PyInt 2000)
       (PyInt 3) = Err TypeError
  /\ compute_snr_spec demo_log_filter demo_cube demo_sigma (PyInt 1)
       (PyInt 2000) (PyInt 3) = Ok [PrimFloat.div 5000 7.5].
Proof. vm_compute. repeat split. Qed.

(** ** [from_threshold_to_snr] *)

Lemma arr_zip_shape {A B C : Type} (dt : np_dtype) (f : A -> B -> C)
    (a : ndarray A) (b : ndarray B) (c : ndarray C) :
  arr_zip dt f a b = Ok c -> shape c = shape a /\ shape a = shape b.
Proof.
  unfold arr_zip.
  destruct (list_eq_dec Nat.eq_dec (shape a) (shape b)) as [E|];
    [|discriminate].
  intros H. inversion H. simpl. auto.
Qed.

Lemma snr_mask_shape (image : ndarray float) (mask : pyvalue)
    (threshold : pynum) (mask_ : ndarray bool) :
  snr_mask image mask threshold = Ok mask_ -> shape mask_ = shape image.
Proof.
  unfold snr_mask. intros H. apply bind_Ok in H.
  destruct H as (thr & _ & H). destruct mask as [m|]; [|discriminate].
  apply arr_zip_shape in H. destruct H as [H1 H2]. rewrite H1, H2.
  reflexivity.
Qed.

(** Against C10 as stated.  A two-dimensional image and a scalar sigma, no
    pixel above the threshold: the call returns the empty list. *)
Lemma from_threshold_to_snr_2d_returns :
  ndim demo_image = 2%nat
  /\ from_threshold_to_snr demo_image (SigmaScalar (PyInt 1))
       (VArray demo_all_true) (PyInt 100) (PyInt 3) = Ok [].
Proof. vm_compute. split; reflexivity. Qed.

(** C10, as amended.  [from_threshold_to_snr] reads [sigma[0]] and
    [sigma[1]] and filters, unpacks and slices three axes only after it has
    found a spot.  With an image that is not three-dimensional or a scalar
    sigma it therefore raises as soon as one pixel of the mask is above the
    threshold, and returns the empty list when none is. *)
Theorem from_threshold_to_snr_needs_3d (image : ndarray float)
    (sigma : sigma_t) (mask : pyvalue) (threshold neighbor_factor : pynum) :
  ndim image <> 3%nat \/ (exists s, sigma = SigmaScalar s) ->
  (forall mask_, snr_mask image mask threshold = Ok mask_ ->
     nonzero mask_ = [] ->
     from_threshold_to_snr image sigma mask threshold neighbor_factor = Ok [])
  /\ (forall mask_, snr_mask image mask threshold = Ok mask_ ->
        nonzero mask_ <> [] ->
        exists e,
          from_threshold_to_snr image sigma mask threshold neighbor_factor
          = Err e)
  /\ (forall e, snr_mask image mask threshold = Err e ->
        from_threshold_to_snr image sigma mask threshold neighbor_factor
        = Err e).
Proof.
  intros Hbad. unfold from_threshold_to_snr. repeat split.
  - intros mask_ Hm Hnone. rewrite Hm. simpl. rewrite Hnone. reflexivity.
  - intros mask_ Hm Hsome. rewrite Hm. simpl.
    destruct (nonzero mask_) as [|row spots] eqn:Espots; [tauto|]. simpl.
    destruct (snr_radii (sqrt_ndim image) sigma neighbor_factor)
      as [[[[zr yxr] zn] yxn]|e] eqn:Er; simpl; [|eauto].
    destruct Hbad as [Hdim|[s ->]]; [|discriminate].
    unfold maximum_filter, normalize_sequence. simpl.
    unfold ndim in *. rewrite (snr_mask_shape _ _ _ _ Hm).
    destruct (length (shape image)) as [|[|[|[|n]]]] eqn:El; simpl; eauto.
    tauto.
  - intros e Hm. rewrite Hm. reflexivity.
Qed.

Lemma from_threshold_to_snr_needs_3d_witness :
  (forall mask_,
     snr_mask demo_image (VArray demo_all_true) (PyInt 6) = Ok mask_ ->
     nonzero mask_ = [] ->
     from_threshold_to_snr demo_image (SigmaScalar (PyInt 1))
       (VArray demo_all_true) (PyInt 6) (PyInt 3) = Ok [])
  /\ (forall mask_,
        snr_mask demo_image (VArray demo_all_true) (PyInt 6) = Ok mask_ ->
        nonzero mask_ <> [] ->
        exists e,
          from_threshold_to_snr demo_image (SigmaScalar (PyInt 1))
            (VArray demo_all_true) (PyInt 6) (PyInt 3) = Err e)
  /\ (forall e,
        snr_mask demo_image (VArray demo_all_true) (PyInt 6) = Err e ->
        from_threshold_to_snr demo_image (SigmaScalar (PyInt 1))
          (VArray demo_all_true) (PyInt 6) (PyInt 3) = Err e).
Proof.
  apply (from_threshold_to_snr_needs_3d demo_image (SigmaScalar (PyInt 1))
           (VArray demo_all_true) (PyInt 6) (PyInt 3)).
  left. vm_compute. discriminate.
Defined.

Example from_threshold_to_snr_2d_raises :
  from_threshold_to_snr demo_image demo_sigma (VArray demo_all_true)
    (PyInt 6) (PyInt 3) = Err RuntimeError
  /\ from_threshold_to_snr demo_cube (SigmaScalar (PyInt 1))
       (VArray (all_true demo_cube)) (PyInt 6) (PyInt 3) = Err TypeError.
Proof. vm_compute. split; reflexivity. Qed.

Lemma in_range_iff (mz my mx : nat) (z_neigh yx_neigh z y x : Z) :
  (z_neigh <=? z) && (z <=? Z.of_nat mz - z_neigh - 1)
  && ((yx_neigh <=? y) && (y <=? Z.of_nat my - yx_neigh - 1))
  && ((yx_neigh <=? x) && (x <=? Z.of_nat mx - yx_neigh - 1)) = true
  <-> ~ near_boundary [mz; my; mx] z_neigh yx_neigh [z; y; x].
Proof.
  unfold near_boundary. rewrite !andb_true_iff, !Z.leb_le. lia.
Qed.

Lemma snr_of_spot_3d (image noise : ndarray float) (mz my mx : nat)
    (z_radius yx_radius z_neigh yx_neigh z y x : Z) :
  shape image = [mz; my; mx] ->
  exists v,
    snr_of_spot image noise z_radius yx_radius z_neigh yx_neigh [z; y; x]
    = Ok v
    /\ (near_boundary (shape image) z_neigh yx_neigh [z; y; x] -> v = nan)
    /\ (~ near_boundary (shape image) z_neigh yx_neigh [z; y; x] ->
        v = snr_ratio image noise z_radius yx_radius z_neigh yx_neigh
              (Z.of_nat mz) (Z.of_nat my) (Z.of_nat mx) z y x).
Proof.
  intros Hsh. unfold snr_of_spot. rewrite Hsh. simpl.
  pose proof (in_range_iff mz my mx z_neigh yx_neigh z y x) as Hiff.
  destruct ((z_neigh <=? z) && (z <=? Z.of_nat mz - z_neigh - 1)
            && ((yx_neigh <=? y) && (y <=? Z.of_nat my - yx_neigh - 1))
            && ((yx_neigh <=? x) && (x <=? Z.of_nat mx - yx_neigh - 1))).
  - eexists. split; [reflexivity|]. split.
    + intros Hnear. exfalso. apply (proj1 Hiff); auto.
    + intros _. reflexivity.
  - eexists. split; [reflexivity|]. split.
    + reflexivity.
    + intros Hfar. apply Hiff in Hfar. discriminate.
Qed.

Lemma in_bounds_3d (mz my mx : nat) (row : list Z) :
  in_bounds [mz; my; mx] row -> exists z y x, row = [z; y; x].
Proof.
  intros H. apply in_bounds_length in H.
  destruct row as [|z [|y [|x [|]]]]; try discriminate. eauto.
Qed.

Lemma mapM_nth {A B : Type} (f : A -> result B) (P : A -> B -> Prop)
    (l : list A) :
  (forall a, In a l -> exists b, f a = Ok b /\ P a b) ->
  exists bs, mapM f l = Ok bs /\ length bs = length l
             /\ forall i a, nth_error l i = Some a ->
                  exists b, nth_error bs i = Some b /\ P a b.
Proof.
  induction l as [|a l IH]; intros H; simpl.
  - exists []. repeat split. intros [|i] a Ha; discriminate.
  - destruct (H a (or_introl eq_refl)) as (b & Hb & HP).
    destruct IH as (bs & Hbs & Hlen & Hnth); [intros; apply H; right; auto|].
    exists (b :: bs). rewrite Hb. simpl. rewrite Hbs. simpl.
    repeat split; [f_equal; exact Hlen|].
    intros [|i] a' Ha'; simpl in *.
    + inversion Ha'; subst. eauto.
    + apply Hnth. exact Ha'.
Qed.

(** Against C7 as stated.  One spot at the noise radius from every face of a
    flat volume: the deviation of its neighbourhood is zero and the ratio is
    infinite. *)
Lemma from_threshold_to_snr_infinite :
  snr_radii (sqrt_ndim demo_flat_cube) demo_sigma (PyInt 3) = Ok (0, 0, 1, 1)
  /\ nonzero (arr_gt demo_flat_cube (PyInt 2000)) = [[1; 1; 1]]
  /\ ~ near_boundary (shape demo_flat_cube) 1 1 [1; 1; 1]
  /\ from_threshold_to_snr demo_flat_cube demo_sigma
       (VArray (all_true demo_flat_cube)) (PyInt 2000) (PyInt 3)
     = Ok [infinity]
  /\ PrimFloat.is_finite infinity = false.
Proof.
  repeat split; try (vm_compute; reflexivity).
  unfold near_boundary. simpl. lia.
Qed.

(** C7, as amended.  On a three-dimensional image, once the mask and the
    radii are computed, [from_threshold_to_snr] returns one value per spot,
    in the order of the spots: NaN for a spot closer than the noise radius
    to a face of the volume, and otherwise the ratio of the mean of its
    signal window to the deviation of its noise window, which is a float
    and can itself be infinite or NaN. *)
Theorem from_threshold_to_snr_boundary (image : ndarray float)
    (sigma : sigma_t) (mask : pyvalue) (threshold neighbor_factor : pynum)
    (mask_ : ndarray bool) (mz my mx : nat)
    (z_radius yx_radius z_neigh yx_neigh : Z) :
  shape image = [mz; my; mx] ->
  snr_mask image mask threshold = Ok mask_ ->
  snr_radii (sqrt_ndim image) sigma neighbor_factor
  = Ok (z_radius, yx_radius, z_neigh, yx_neigh) ->
  exists dilated l,
    maximum_filter bool_ltb mask_
      (SizeSeq [2 * z_radius + 1; 2 * yx_radius + 1; 2 * yx_radius + 1])
      (Constant false) = Ok dilated
    /\ from_threshold_to_snr image sigma mask threshold neighbor_factor = Ok l
    /\ length l = length (nonzero mask_)
    /\ forall i row, nth_error (nonzero mask_) i = Some row ->
         exists z y x v,
           row = [z; y; x] /\ nth_error l i = Some v
           /\ (near_boundary (shape image) z_neigh yx_neigh row -> v = nan)
           /\ (~ near_boundary (shape image) z_neigh yx_neigh row ->
               v = snr_ratio image (noise_volume image dilated)
                     z_radius yx_radius z_neigh yx_neigh
                     (Z.of_nat mz) (Z.of_nat my) (Z.of_nat mx) z y x).
Proof.
  intros Hsh Hm Hr.
  pose proof (snr_mask_shape _ _ _ _ Hm) as Hshm.
  assert (Hfilt : exists dilated,
             maximum_filter bool_ltb mask_
               (SizeSeq [2 * z_radius + 1; 2 * yx_radius + 1; 2 * yx_radius + 1])
               (Constant false) = Ok dilated).
  { unfold maximum_filter, normalize_sequence, ndim.
    rewrite Hshm, Hsh. simpl. eauto. }
  destruct Hfilt as [dilated Hd]. exists dilated.
  destruct (mapM_nth
              (snr_of_spot image (noise_volume image dilated)
                 z_radius yx_radius z_neigh yx_neigh)
              (fun row v =>
                 exists z y x,
                   row = [z; y; x]
                   /\ (near_boundary (shape image) z_neigh yx_neigh row ->
                       v = nan)
                   /\ (~ near_boundary (shape image) z_neigh yx_neigh row ->
                       v = snr_ratio image (noise_volume image dilated)
                             z_radius yx_radius z_neigh yx_neigh
                             (Z.of_nat mz) (Z.of_nat my) (Z.of_nat mx) z y x))
              (nonzero mask_)) as (l & Hl & Hlen & Hnth).
  { intros row Hrow. unfold nonzero in Hrow. apply filter_In in Hrow.
    destruct Hrow as [Hrow _]. apply in_indices in Hrow.
    rewrite Hshm, Hsh in Hrow.
    destruct (in_bounds_3d _ _ _ _ Hrow) as (z & y & x & ->).
    destruct (snr_of_spot_3d image (noise_volume image dilated) mz my mx
                z_radius yx_radius z_neigh yx_neigh z y x Hsh)
      as (v & Hv & Hnear & Hfar).
    exists v. split; [exact Hv|]. exists z, y, x. auto. }
  exists l. split; [exact Hd|]. split; [|split; [exact Hlen|]].
  - unfold from_threshold_to_snr. rewrite Hm.
    cbv beta iota delta [bind].
    destruct (nonzero mask_) as [|row rows] eqn:Espots.
    + simpl in Hl. inversion Hl. reflexivity.
    + simpl length. simpl Nat.eqb. cbv beta iota zeta. rewrite Hr.
      cbv beta iota zeta. rewrite Hd. exact Hl.
  - intros i row Hi. destruct (Hnth i row Hi) as (v & Hv & z & y & x & H).
    exists z, y, x, v. tauto.
Qed.

Lemma from_threshold_to_snr_boundary_witness :
  exists dilated l,
    maximum_filter bool_ltb demo_thresholded
      (SizeSeq [2 * 0 + 1; 2 * 0 + 1; 2 * 0 + 1]) (Constant false)
    = Ok dilated
    /\ from_threshold_to_snr demo_cube demo_sigma (VArray (all_true demo_cube))
         (PyInt 10) (PyInt 3) = Ok l
    /\ length l = length (nonzero demo_thresholded)
    /\ forall i row, nth_error (nonzero demo_thresholded) i = Some row ->
         exists z y x v,
           row = [z; y; x] /\ nth_error l i = Some v
           /\ (near_boundary (shape demo_cube) 1 1 row -> v = nan)
           /\ (~ near_boundary (shape demo_cube) 1 1 row ->
               v = snr_ratio demo_cube (noise_volume demo_cube dilated)
                     0 0 1 1 (Z.of_nat 3) (Z.of_nat 3) (Z.of_nat 3) z y x).
Proof.
  apply (from_threshold_to_snr_boundary demo_cube demo_sigma
           (VArray (all_true demo_cube)) (PyInt 10) (PyInt 3)
           demo_thresholded 3 3 3 0 0 1 1); vm_compute; reflexivity.
Defined.

Example from_threshold_to_snr_demo :
  match from_threshold_to_snr demo_cube demo_sigma (VArray (all_true demo_cube))
          (PyInt 10) (PyInt 3) with
  | Ok l =>
      length l = 17%nat
      /\ map PrimFloat.is_nan l
         = [true; true; true; false; true; true; true; true; true; true; true;
            true; true; true; true; true; true]
  | Err _ => False
  end.
Proof. vm_compute. split; reflexivity. Qed.

Lemma filter_cc_spots_outside_witness :
  exists kept out,
    filter_cc demo_regionprops demo_volume demo_labels demo_spots 10 2
      (PyInt 2) = Ok (kept, out)
    /\ ncols out = ncols demo_spots
    /\ rows out = filter (outside_all (map bbox kept)) (rows demo_spots)
    /\ (forall s, In s (rows out) <->
          In s (rows demo_spots)
          /\ forall R, In R kept -> in_bbox (bbox R) s = false).
Proof.
  apply (filter_cc_spots_outside demo_regionprops demo_volume demo_labels
           demo_spots 10 2 (PyInt 2)).
  - vm_compute. reflexivity.
  - vm_compute. reflexivity.
  - split; [simpl; lia | repeat constructor].
  - repeat constructor.
  - vm_compute. discriminate.
Defined.

(** * Further properties of the code *)

(** ** What the entry points return on valid input *)

Lemma local_maximum_detection_Ok (image : ndarray float) (d : Z) :
  check_image image false = Ok tt ->
  local_maximum_detection image (PyInt d)
  = Ok (local_maximum_mask image (2 * d + 1)).
Proof.
  intros H. unfold local_maximum_detection. rewrite H. simpl.
  unfold maximum_filter. simpl. rewrite arr_zip_same by reflexivity.
  reflexivity.
Qed.

Lemma local_maximum_mask_iff (image : ndarray float) (d : Z) (idx : list Z) :
  (forall i, in_bounds (shape image) i -> not_nan (item image i)) ->
  0 <= d -> in_bounds (shape image) idx ->
  item (local_maximum_mask image (2 * d + 1)) idx = true
  <-> window_maximum image d idx.
Proof.
  intros Hnan Hd Hidx. unfold local_maximum_mask, window_maximum. cbn [item].
  destruct (maximum_window_spec image d idx Hnan Hd Hidx)
    as (Hub & idxM & HbM & HwM & HM).
  rewrite feqb_iff. split.
  - intros [_ Hle] idx' Hb' Hw. eapply fle_trans; [|exact Hle].
    apply Hub; assumption.
  - intros Hall. split.
    + apply Hub; [exact Hidx | apply within_refl; exact Hd].
    + rewrite HM. apply Hall; assumption.
Qed.

Lemma spots_thresholding_Ok (image : ndarray float) (sigma : sigma_t)
    (mask_lm : ndarray bool) (threshold : pynum) :
  check_image image false = Ok tt ->
  dtype mask_lm = np_bool ->
  shape mask_lm = shape image ->
  spots_thresholding image sigma mask_lm threshold
  = Ok (mk_coords (ndim mask_lm)
          (nonzero (thresholded_mask image mask_lm threshold)),
        radius_of image sigma,
        thresholded_mask image mask_lm threshold).
Proof.
  intros Hcheck Hdt Hsh.
  unfold spots_thresholding. rewrite Hcheck. simpl.
  rewrite (check_mask_Ok mask_lm (ndim image)); auto;
    [|unfold ndim; rewrite Hsh; reflexivity
     |eapply check_image_ndim; eassumption].
  simpl. rewrite arr_zip_same by (simpl; exact Hsh). simpl.
  destruct sigma; reflexivity.
Qed.

Lemma in_nonzero (mask : ndarray bool) (c : list Z) :
  In c (nonzero mask) <-> in_bounds (shape mask) c /\ item mask c = true.
Proof.
  unfold nonzero. rewrite filter_In, in_indices. tauto.
Qed.

Lemma within_sym (d : Z) (idx idx' : list Z) :
  within d idx idx' -> within d idx' idx.
Proof.
  unfold within. induction 1; constructor; auto. lia.
Qed.

Lemma within_mono (d d' : Z) (idx idx' : list Z) :
  d <= d' -> within d idx idx' -> within d' idx idx'.
Proof.
  intros Hd. unfold within. induction 1; constructor; auto. lia.
Qed.

(** ** [log_lm] *)

(** The pipeline of [log_lm] on a valid image whose filtered image is valid
    and of the same shape: the spots are exactly the pixels that are a
    maximum of their window in the filtered image and lie strictly above
    the threshold in the original image. *)
Theorem log_lm_spots
    (log_filter : ndarray float -> sigma_t -> bool -> result (ndarray float))
    (image filtered : ndarray float) (sigma : sigma_t) (threshold : pynum)
    (d : Z) :
  check_image image false = Ok tt ->
  log_filter image sigma true = Ok filtered ->
  check_image filtered false = Ok tt ->
  shape filtered = shape image ->
  0 <= d ->
  exists spots radius,
    log_lm log_filter image sigma threshold (PyInt d) = Ok (spots, radius)
    /\ ncols spots = ndim image
    /\ radius = radius_of image sigma
    /\ forall c, In c (rows spots) <->
         in_bounds (shape image) c
         /\ window_maximum filtered d c
         /\ flt (to_float threshold) (item image c).
Proof.
  intros Himg Hlog Hfil Hsh Hd.
  pose proof (check_image_no_nan filtered Hfil) as Hnan.
  unfold log_lm. rewrite Himg, Hlog. simpl.
  rewrite (local_maximum_detection_Ok filtered d Hfil). simpl.
  rewrite spots_thresholding_Ok by (simpl; auto). simpl.
  do 2 eexists. split; [reflexivity|]. simpl.
  split; [unfold ndim; simpl; rewrite Hsh; reflexivity|].
  split; [reflexivity|].
  intros c. rewrite in_nonzero. simpl shape. rewrite Hsh.
  split.
  - intros [Hb Hm]. simpl in Hm. apply andb_prop in Hm.
    destruct Hm as [Hm Hgt]. split; [exact Hb|]. split; [|exact Hgt].
    apply (local_maximum_mask_iff filtered d c Hnan Hd);
      [rewrite Hsh; exact Hb | exact Hm].
  - intros (Hb & Hmax & Hgt). split; [exact Hb|]. simpl.
    apply andb_true_intro. split; [|exact Hgt].
    apply (local_maximum_mask_iff filtered d c Hnan Hd);
      [rewrite Hsh; exact Hb | exact Hmax].
Qed.

Lemma log_lm_spots_witness :
  exists spots radius,
    log_lm demo_log_filter demo_cube demo_sigma (PyInt 10) (PyInt 1)
    = Ok (spots, radius)
    /\ ncols spots = ndim demo_cube
    /\ radius = radius_of demo_cube demo_sigma
    /\ forall c, In c (rows spots) <->
         in_bounds (shape demo_cube) c
         /\ window_maximum demo_cube 1 c
         /\ flt (to_float (PyInt 10)) (item demo_cube c).
Proof.
  apply (log_lm_spots demo_log_filter demo_cube demo_cube demo_sigma
           (PyInt 10) 1); try (vm_compute; reflexivity). lia.
Defined.

(** ** [local_maximum_detection] *)

(** A larger minimum distance never adds a local maximum. *)
Theorem local_maximum_detection_antitone (image : ndarray float) (d1 d2 : Z) :
  check_image image false = Ok tt -> 0 <= d1 -> d1 <= d2 ->
  exists mask1 mask2,
    local_maximum_detection image (PyInt d1) = Ok mask1
    /\ local_maximum_detection image (PyInt d2) = Ok mask2
    /\ forall idx, in_bounds (shape image) idx ->
         item mask2 idx = true -> item mask1 idx = true.
Proof.
  intros Hcheck Hd1 Hd12.
  pose proof (check_image_no_nan image Hcheck) as Hnan.
  exists (local_maximum_mask image (2 * d1 + 1)),
         (local_maximum_mask image (2 * d2 + 1)).
  rewrite !local_maximum_detection_Ok by assumption.
  split; [reflexivity|]. split; [reflexivity|].
  intros idx Hidx H2.
  apply (local_maximum_mask_iff image d1 idx Hnan Hd1 Hidx).
  apply (local_maximum_mask_iff image d2 idx Hnan ltac:(lia) Hidx) in H2.
  intros idx' Hb' Hw. apply H2; [exact Hb'|].
  eapply within_mono; eassumption.
Qed.

Lemma local_maximum_detection_antitone_witness :
  exists mask1 mask2,
    local_maximum_detection demo_image (PyInt 0) = Ok mask1
    /\ local_maximum_detection demo_image (PyInt 1) = Ok mask2
    /\ forall idx, in_bounds (shape demo_image) idx ->
         item mask2 idx = true -> item mask1 idx = true.
Proof.
  apply (local_maximum_detection_antitone demo_image 0 1);
    [vm_compute; reflexivity | lia | lia].
Defined.

(** Two marked pixels that lie within the minimum distance of each other
    carry the same value: distinct peaks are further apart. *)
Theorem local_maxima_close_equal (image : ndarray float) (d : Z) :
  check_image image false = Ok tt -> 0 <= d ->
  exists mask,
    local_maximum_detection image (PyInt d) = Ok mask
    /\ forall idx idx',
         in_bounds (shape image) idx -> in_bounds (shape image) idx' ->
         within d idx idx' ->
         item mask idx = true -> item mask idx' = true ->
         PrimFloat.eqb (item image idx) (item image idx') = true.
Proof.
  intros Hcheck Hd.
  pose proof (check_image_no_nan image Hcheck) as Hnan.
  exists (local_maximum_mask image (2 * d + 1)).
  rewrite local_maximum_detection_Ok by assumption.
  split; [reflexivity|].
  intros idx idx' Hb Hb' Hw Hm Hm'.
  apply (local_maximum_mask_iff image d idx Hnan Hd Hb) in Hm.
  apply (local_maximum_mask_iff image d idx' Hnan Hd Hb') in Hm'.
  apply feqb_iff. split.
  - apply Hm'; [exact Hb | apply within_sym; exact Hw].
  - apply Hm; assumption.
Qed.

Lemma local_maxima_close_equal_witness :
  exists mask,
    local_maximum_detection demo_image (PyInt 1) = Ok mask
    /\ forall idx idx',
         in_bounds (shape demo_image) idx ->
         in_bounds (shape demo_image) idx' ->
         within 1 idx idx' ->
         item mask idx = true -> item mask idx' = true ->
         PrimFloat.eqb (item demo_image idx) (item demo_image idx') = true.
Proof.
  apply (local_maxima_close_equal demo_image 1);
    [vm_compute; reflexivity | lia].
Defined.

(** A pixel that no pixel of the image exceeds is marked, whatever the
    distance; an image with a pixel therefore always has a marked one. *)
Theorem local_maximum_detection_marks_global_max (image : ndarray float)
    (d : Z) (idx0 : list Z) :
  check_image image false = Ok tt -> 0 <= d ->
  in_bounds (shape image) idx0 ->
  exists mask,
    local_maximum_detection image (PyInt d) = Ok mask
    /\ (forall idx, in_bounds (shape image) idx ->
          (forall idx', in_bounds (shape image) idx' ->
                        fle (item image idx') (item image idx)) ->
          item mask idx = true)
    /\ exists idx, in_bounds (shape image) idx /\ item mask idx = true.
Proof.
  intros Hcheck Hd H0.
  pose proof (check_image_no_nan image Hcheck) as Hnan.
  exists (local_maximum_mask image (2 * d + 1)).
  rewrite local_maximum_detection_Ok by assumption.
  split; [reflexivity|].
  assert (Hglobal : forall idx, in_bounds (shape image) idx ->
            (forall idx', in_bounds (shape image) idx' ->
                          fle (item image idx') (item image idx)) ->
            item (local_maximum_mask image (2 * d + 1)) idx = true).
  { intros idx Hidx Hall.
    apply (local_maximum_mask_iff image d idx Hnan Hd Hidx).
    intros idx' Hb' _. apply Hall. exact Hb'. }
  split; [exact Hglobal|].
  apply in_indices in H0.
  destruct (indices (shape image)) as [|i0 rest] eqn:Eidx; [destruct H0|].
  assert (Hin : forall i, In i (i0 :: rest) -> in_bounds (shape image) i).
  { intros i Hi. apply in_indices. rewrite Eidx. exact Hi. }
  destruct (fold_vmax_spec (map (item image) rest) (item image i0))
    as (_ & Hwhere & Hle0 & Hall).
  { apply Hnan, Hin. left. reflexivity. }
  { intros w Hw. apply in_map_iff in Hw. destruct Hw as (i & <- & Hi).
    apply Hnan, Hin. right. exact Hi. }
  assert (Hmax : exists i, In i (i0 :: rest)
            /\ item image i
               = fold_left (vmax PrimFloat.ltb) (map (item image) rest)
                   (item image i0)).
  { destruct Hwhere as [E|Hw].
    - exists i0. split; [left; reflexivity | symmetry; exact E].
    - apply in_map_iff in Hw. destruct Hw as (i & E & Hi).
      exists i. split; [right; exact Hi | exact E]. }
  destruct Hmax as (i & Hi & Ei). exists i. split; [apply Hin; exact Hi|].
  apply Hglobal; [apply Hin; exact Hi|].
  intros idx' Hb'. rewrite Ei. apply in_indices in Hb'. rewrite Eidx in Hb'.
  destruct Hb' as [<-|Hb']; [exact Hle0|].
  apply Hall. apply in_map. exact Hb'.
Qed.

Lemma local_maximum_detection_marks_global_max_witness :
  exists mask,
    local_maximum_detection demo_image (PyInt 1) = Ok mask
    /\ (forall idx, in_bounds (shape demo_image) idx ->
          (forall idx', in_bounds (shape demo_image) idx' ->
                        fle (item demo_image idx') (item demo_image idx)) ->
          item mask idx = true)
    /\ exists idx, in_bounds (shape demo_image) idx /\ item mask idx = true.
Proof.
  apply (local_maximum_detection_marks_global_max demo_image 1 [0; 0]);
    [vm_compute; reflexivity | lia | vm_compute; reflexivity].
Defined.

(** ** [spots_thresholding] *)

Lemma SFleb_ltb_trans (a b c : spec_float) :
  SFleb a b = true -> SFltb b c = true -> SFltb a c = true.
Proof.
  unfold SFleb, SFltb.
  destruct a, b, c; simpl; intros; try discriminate; sf_cases; auto.
Qed.

Lemma fle_flt_trans (a b c : float) : fle a b -> flt b c -> flt a c.
Proof.
  unfold fle, flt. rewrite leb_spec, !ltb_spec. apply SFleb_ltb_trans.
Qed.

(** Raising the threshold never adds a spot, and leaves the radius
    alone. *)
Theorem spots_thresholding_monotone (image : ndarray float) (sigma : sigma_t)
    (mask_lm : ndarray bool) (t1 t2 : pynum) :
  check_image image false = Ok tt ->
  dtype mask_lm = np_bool ->
  shape mask_lm = shape image ->
  fle (to_float t1) (to_float t2) ->
  exists spots1 radius1 mask1 spots2 radius2 mask2,
    spots_thresholding image sigma mask_lm t1 = Ok (spots1, radius1, mask1)
    /\ spots_thresholding image sigma mask_lm t2 = Ok (spots2, radius2, mask2)
    /\ incl (rows spots2) (rows spots1)
    /\ (forall idx, item mask2 idx = true -> item mask1 idx = true)
    /\ radius1 = radius2.
Proof.
  intros Hcheck Hdt Hsh Hle.
  rewrite !spots_thresholding_Ok by assumption.
  do 6 eexists. split; [reflexivity|]. split; [reflexivity|].
  assert (Hmask : forall idx,
            item (thresholded_mask image mask_lm t2) idx = true ->
            item (thresholded_mask image mask_lm t1) idx = true).
  { intros idx H. simpl in *. apply andb_prop in H. destruct H as [Hm Hgt].
    apply andb_true_intro. split; [exact Hm|].
    exact (fle_flt_trans _ _ _ Hle Hgt). }
  split; [|split; [exact Hmask | reflexivity]].
  intros c Hc. simpl in *. apply in_nonzero in Hc. apply in_nonzero.
  destruct Hc as [Hb Hc]. split; [exact Hb | apply Hmask; exact Hc].
Qed.

Lemma spots_thresholding_monotone_witness :
  exists spots1 radius1 mask1 spots2 radius2 mask2,
    spots_thresholding demo_image (SigmaScalar (PyInt 1)) demo_all_true
      (PyInt 1) = Ok (spots1, radius1, mask1)
    /\ spots_thresholding demo_image (SigmaScalar (PyInt 1)) demo_all_true
         (PyFloat 5) = Ok (spots2, radius2, mask2)
    /\ incl (rows spots2) (rows spots1)
    /\ (forall idx, item mask2 idx = true -> item mask1 idx = true)
    /\ radius1 = radius2.
Proof.
  apply (spots_thresholding_monotone demo_image (SigmaScalar (PyInt 1))
           demo_all_true (PyInt 1) (PyFloat 5)); vm_compute; reflexivity.
Defined.

Lemma NoDup_indices (sh : list nat) : NoDup (indices sh).
Proof.
  induction sh as [|n sh IH]; simpl.
  - constructor; [intros [] | constructor].
  - generalize 0%nat. induction n as [|n IHn]; intros start; simpl.
    + constructor.
    + apply NoDup_app.
      * apply NoDup_map_NoDup_ForallPairs; [|exact IH].
        intros x y _ _ E. inversion E. reflexivity.
      * apply IHn.
      * intros a Ha Hb. apply in_map_iff in Ha.
        destruct Ha as (idx & <- & _). apply in_flat_map in Hb.
        destruct Hb as (i & Hi & Hb). apply in_seq in Hi.
        apply in_map_iff in Hb. destruct Hb as (idx' & E & _).
        inversion E. lia.
Qed.

(** The spots come out as a rectangular array with one column per axis of
    the image, every row the index of a pixel, no row twice; from a
    three-dimensional image they are what [filter_cc] reads. *)
Theorem spots_thresholding_coordinates (image : ndarray float)
    (sigma : sigma_t) (mask_lm : ndarray bool) (threshold : pynum) :
  check_image image false = Ok tt ->
  dtype mask_lm = np_bool ->
  shape mask_lm = shape image ->
  exists spots radius mask,
    spots_thresholding image sigma mask_lm threshold = Ok (spots, radius, mask)
    /\ ncols spots = ndim image
    /\ Forall (fun r => length r = ncols spots
                        /\ in_bounds (shape image) r) (rows spots)
    /\ NoDup (rows spots)
    /\ (ndim image = 3%nat -> wf_spots spots).
Proof.
  intros Hcheck Hdt Hsh.
  rewrite spots_thresholding_Ok by assumption.
  do 3 eexists. split; [reflexivity|]. simpl.
  assert (Hn : ndim mask_lm = ndim image)
    by (unfold ndim; rewrite Hsh; reflexivity).
  assert (Hrows : Forall (fun r => length r = ndim mask_lm
                                   /\ in_bounds (shape image) r)
                    (nonzero (thresholded_mask image mask_lm threshold))).
  { apply Forall_forall. intros r Hr. apply in_nonzero in Hr.
    destruct Hr as [Hb _]. simpl in Hb. rewrite Hsh in Hb.
    split; [|exact Hb]. rewrite Hn. apply in_bounds_length. exact Hb. }
  split; [exact Hn|]. split; [exact Hrows|]. split.
  - apply NoDup_filter. apply NoDup_indices.
  - intros H3. split; simpl.
    + rewrite Hn, H3. apply le_n.
    + eapply Forall_impl; [|exact Hrows]. simpl. tauto.
Qed.

Lemma spots_thresholding_coordinates_witness :
  exists spots radius mask,
    spots_thresholding demo_cube demo_sigma (all_true demo_cube) (PyInt 10)
    = Ok (spots, radius, mask)
    /\ ncols spots = ndim demo_cube
    /\ Forall (fun r => length r = ncols spots
                        /\ in_bounds (shape demo_cube) r) (rows spots)
    /\ NoDup (rows spots)
    /\ (ndim demo_cube = 3%nat -> wf_spots spots).
Proof.
  apply (spots_thresholding_coordinates demo_cube demo_sigma
           (all_true demo_cube) (PyInt 10)); vm_compute; reflexivity.
Defined.

(** After the image, the mask is validated: one that is not boolean, or
    neither two- nor three-dimensional, is refused with a validation
    error. *)
Theorem spots_thresholding_checks_mask (image : ndarray float)
    (sigma : sigma_t) (mask_lm : ndarray bool) (threshold : pynum) :
  check_image image false = Ok tt ->
  dtype mask_lm <> np_bool \/ (ndim mask_lm <> 2%nat /\ ndim mask_lm <> 3%nat) ->
  exists e,
    spots_thresholding image sigma mask_lm threshold = Err e
    /\ is_validation_error e = true.
Proof.
  intros Hcheck Hbad. unfold spots_thresholding. rewrite Hcheck. simpl.
  destruct (check_array (fun _ : bool => false) mask_lm [2; 3]%nat [np_bool]
              false) as [[]|e] eqn:E.
  - exfalso. apply check_array_Ok in E. destruct E as (Hn & Hd & _).
    simpl in Hn, Hd. rewrite orb_false_r in Hn, Hd.
    destruct Hbad as [Hbad|[H2 H3]].
    + apply Hbad. destruct (dtype mask_lm); try discriminate. reflexivity.
    + apply orb_prop in Hn. destruct Hn as [Hn|Hn]; apply Nat.eqb_eq in Hn;
        auto.
  - exists e. split; [reflexivity|].
    eapply check_array_validation. exact E.
Qed.

Lemma spots_thresholding_checks_mask_witness :
  exists e,
    spots_thresholding demo_image (SigmaScalar (PyInt 1))
      (mk_ndarray np_uint8 (shape demo_image) (fun _ => true)) (PyInt 5)
    = Err e
    /\ is_validation_error e = true.
Proof.
  apply (spots_thresholding_checks_mask demo_image (SigmaScalar (PyInt 1))
           (mk_ndarray np_uint8 (shape demo_image) (fun _ => true)) (PyInt 5)).
  - vm_compute. reflexivity.
  - left. simpl. discriminate.
Defined.

(** ** [filter_cc] off three-dimensional data *)

Lemma unpack6_not_six (box : list Z) :
  length box <> 6%nat -> unpack6 box = Err ValueError.
Proof.
  intros H. destruct box as [|a [|b [|c [|d [|e [|f [|g box]]]]]]];
    simpl in *; try reflexivity. lia.
Qed.

Lemma mask_spots_in_few_columns (spots : coords) (box : list Z) :
  length box = 6%nat -> (ncols spots < 3)%nat ->
  mask_spots_in spots box = Err IndexError.
Proof.
  intros Hbox Hcols.
  destruct box as [|a [|b [|c [|d [|e [|f [|g box]]]]]]]; try discriminate.
  unfold mask_spots_in, column. simpl unpack6.
  destruct (ncols spots) as [|[|[|n]]]; try lia; reflexivity.
Qed.

Lemma filter_cc_first_box
    (regionprops : ndarray Z -> ndarray float -> list region)
    (image : ndarray float) (cc : ndarray Z) (spots : coords)
    (min_area min_nb_spots : Z) (min_intensity_factor : pynum)
    (r0 : region) (rest : list region) (e : error) :
  check_image image true = Ok tt ->
  check_array (fun _ : Z => false) cc [2; 3]%nat [np_int64] true = Ok tt ->
  area_surviving (regionprops cc image) min_area = r0 :: rest ->
  mask_spots_in spots (bbox r0) = Err e ->
  filter_cc regionprops image cc spots min_area min_nb_spots
    min_intensity_factor = Err e.
Proof.
  intros Himg Hcc Hbig Hfirst. unfold filter_cc. rewrite Himg, Hcc. simpl.
  rewrite !map_map, compress_filter.
  rewrite (compress_map (fun r => min_area <? area r) max_intensity).
  rewrite (compress_map (fun r => min_area <? area r) bbox).
  change (filter (fun r => min_area <? area r) (regionprops cc image))
    with (area_surviving (regionprops cc image) min_area).
  rewrite Hbig. simpl. rewrite Hfirst. reflexivity.
Qed.

(** On a label image that is not three-dimensional (bounding boxes of
    other than six components) [filter_cc] returns its empty result as
    long as no region passes the area filter, and raises on unpacking the
    first box as soon as one does. *)
Theorem filter_cc_boxes_not_3d
    (regionprops : ndarray Z -> ndarray float -> list region)
    (image : ndarray float) (cc : ndarray Z) (spots : coords)
    (min_area min_nb_spots : Z) (min_intensity_factor : pynum) :
  check_image image true = Ok tt ->
  check_array (fun _ : Z => false) cc [2; 3]%nat [np_int64] true = Ok tt ->
  Forall (fun r => length (bbox r) <> 6%nat) (regionprops cc image) ->
  (area_surviving (regionprops cc image) min_area = [] ->
   filter_cc regionprops image cc spots min_area min_nb_spots
     min_intensity_factor = Ok ([], mk_coords 2 []))
  /\ (area_surviving (regionprops cc image) min_area <> [] ->
      filter_cc regionprops image cc spots min_area min_nb_spots
        min_intensity_factor = Err ValueError).
Proof.
  intros Himg Hcc Hbox. split.
  - intros Hnone. apply filter_cc_no_big_region; assumption.
  - intros Hsome.
    destruct (area_surviving (regionprops cc image) min_area)
      as [|r0 rest] eqn:Ebig; [tauto|].
    eapply filter_cc_first_box; try eassumption.
    unfold mask_spots_in. rewrite unpack6_not_six; [reflexivity|].
    rewrite Forall_forall in Hbox. apply Hbox.
    apply (in_area_surviving (regionprops cc image) min_area r0).
    rewrite Ebig. left. reflexivity.
Qed.

Lemma filter_cc_boxes_not_3d_witness :
  (area_surviving (demo_regionprops_2d demo_labels demo_volume) 10 = [] ->
   filter_cc demo_regionprops_2d demo_volume demo_labels demo_spots_2d 10 2
     (PyInt 2) = Ok ([], mk_coords 2 []))
  /\ (area_surviving (demo_regionprops_2d demo_labels demo_volume) 10 <> [] ->
      filter_cc demo_regionprops_2d demo_volume demo_labels demo_spots_2d 10 2
        (PyInt 2) = Err ValueError).
Proof.
  apply (filter_cc_boxes_not_3d demo_regionprops_2d demo_volume demo_labels
           demo_spots_2d 10 2 (PyInt 2)).
  - vm_compute. reflexivity.
  - vm_compute. reflexivity.
  - repeat constructor; simpl; discriminate.
Defined.

(** With three-dimensional boxes but spots of fewer than three columns,
    [filter_cc] raises an IndexError as soon as a region passes the area
    filter. *)
Theorem filter_cc_spots_not_3d
    (regionprops : ndarray Z -> ndarray float -> list region)
    (image : ndarray float) (cc : ndarray Z) (spots : coords)
    (min_area min_nb_spots : Z) (min_intensity_factor : pynum) :
  check_image image true = Ok tt ->
  check_array (fun _ : Z => false) cc [2; 3]%nat [np_int64] true = Ok tt ->
  Forall (fun r => length (bbox r) = 6%nat) (regionprops cc image) ->
  (ncols spots < 3)%nat ->
  area_surviving (regionprops cc image) min_area <> [] ->
  filter_cc regionprops image cc spots min_area min_nb_spots
    min_intensity_factor = Err IndexError.
Proof.
  intros Himg Hcc Hbox Hcols Hsome.
  destruct (area_surviving (regionprops cc image) min_area)
    as [|r0 rest] eqn:Ebig; [tauto|].
  eapply filter_cc_first_box; try eassumption.
  apply mask_spots_in_few_columns; [|exact Hcols].
  rewrite Forall_forall in Hbox. apply Hbox.
  apply (in_area_surviving (regionprops cc image) min_area r0).
  rewrite Ebig. left. reflexivity.
Qed.

Lemma filter_cc_spots_not_3d_witness :
  filter_cc demo_regionprops demo_volume demo_labels demo_spots_2d 10 2
    (PyInt 2) = Err IndexError.
Proof.
  apply (filter_cc_spots_not_3d demo_regionprops demo_volume demo_labels
           demo_spots_2d 10 2 (PyInt 2)).
  - vm_compute. reflexivity.
  - vm_compute. reflexivity.
  - repeat constructor.
  - simpl. lia.
  - vm_compute. discriminate.
Defined.

Lemma filter_none {A : Type} (f : A -> bool) (l : list A) :
  (forall a, In a l -> f a = false) -> filter f l = [].
Proof.
  induction l as [|a l IH]; simpl; intros H; [reflexivity|].
  rewrite (H a) by auto. apply IH. auto.
Qed.

Lemma filter_all {A : Type} (f : A -> bool) (l : list A) :
  (forall a, In a l -> f a = true) -> filter f l = l.
Proof.
  induction l as [|a l IH]; simpl; intros H; [reflexivity|].
  rewrite (H a) by auto. f_equal. apply IH. auto.
Qed.

(** When regions pass the area filter but none passes the test on spots or
    intensity, no region is kept and the spots come back as they were
    given (the second guard of the function never fires). *)
Theorem filter_cc_none_kept
    (regionprops : ndarray Z -> ndarray float -> list region)
    (image : ndarray float) (cc : ndarray Z) (spots : coords)
    (min_area min_nb_spots : Z) (min_intensity_factor : pynum) :
  check_image image true = Ok tt ->
  check_array (fun _ : Z => false) cc [2; 3]%nat [np_int64] true = Ok tt ->
  wf_spots spots ->
  Forall (fun r => length (bbox r) = 6%nat) (regionprops cc image) ->
  area_surviving (regionprops cc image) min_area <> [] ->
  (forall R, In R (area_surviving (regionprops cc image) min_area) ->
     keep_region spots min_nb_spots
       (intensity_bar (area_surviving (regionprops cc image) min_area)
          min_intensity_factor) R = false) ->
  filter_cc regionprops image cc spots min_area min_nb_spots
    min_intensity_factor = Ok ([], spots).
Proof.
  intros Himg Hcc Hwf Hbox Hsome Hnone.
  rewrite (filter_cc_main regionprops image cc spots min_area min_nb_spots
             min_intensity_factor Himg Hcc Hwf Hbox Hsome).
  rewrite (filter_none _ _ Hnone). simpl.
  rewrite filter_all by reflexivity. destruct spots; reflexivity.
Qed.

Lemma filter_cc_none_kept_witness :
  filter_cc demo_regionprops demo_volume demo_labels demo_spots 10 100
    (PyInt 100) = Ok ([], demo_spots).
Proof.
  apply (filter_cc_none_kept demo_regionprops demo_volume demo_labels
           demo_spots 10 100 (PyInt 100)).
  - vm_compute. reflexivity.
  - vm_compute. reflexivity.
  - split; [simpl; lia | repeat constructor].
  - repeat constructor.
  - vm_compute. discriminate.
  - intros R HR. vm_compute in HR.
    destruct HR as [<-|[<-|[<-|[]]]]; vm_compute; reflexivity.
Defined.

(** ** [get_cc] *)

Lemma SFeqb_irrefl_nan (a : spec_float) : SFeqb a a = false -> a = S754_nan.
Proof.
  unfold SFeqb. destruct a; simpl; intros; try reflexivity; sf_cases.
Qed.

Lemma fltb_nan_r (x y : float) :
  PrimFloat.is_nan y = true -> PrimFloat.ltb x y = false.
Proof.
  unfold PrimFloat.is_nan. rewrite eqb_spec, ltb_spec. intros H.
  apply negb_true_iff in H. apply SFeqb_irrefl_nan in H. rewrite H.
  unfold SFltb. destruct (Prim2SF x); reflexivity.
Qed.

(** [get_cc] accepts an image that holds NaN, and the mask it labels marks
    the pixels strictly above the threshold, never a NaN pixel. *)
Theorem get_cc_foreground (label : ndarray bool -> ndarray Z)
    (image : ndarray float) (threshold : pynum) :
  check_image image true = Ok tt ->
  exists mask,
    get_cc label image threshold = Ok (label mask)
    /\ shape mask = shape image
    /\ (forall idx, item mask idx = true <->
          flt (to_float threshold) (item image idx))
    /\ (forall idx, PrimFloat.is_nan (item image idx) = true ->
          item mask idx = false).
Proof.
  intros H. exists (arr_gt image threshold). unfold get_cc. rewrite H.
  simpl. repeat split; auto.
  intros idx Hnan. apply fltb_nan_r. exact Hnan.
Qed.

Lemma get_cc_foreground_witness :
  exists mask,
    get_cc demo_label demo_nan_image (PyInt 2) = Ok (demo_label mask)
    /\ shape mask = shape demo_nan_image
    /\ (forall idx, item mask idx = true <->
          flt (to_float (PyInt 2)) (item demo_nan_image idx))
    /\ (forall idx, PrimFloat.is_nan (item demo_nan_image idx) = true ->
          item mask idx = false).
Proof.
  apply (get_cc_foreground demo_label demo_nan_image (PyInt 2)).
  vm_compute. reflexivity.
Defined.

(** ** The values of [from_threshold_to_snr] *)

Lemma snr_of_spot_value (image noise : ndarray float) (mz my mx : nat)
    (z_radius yx_radius z_neigh yx_neigh z y x : Z) :
  shape image = [mz; my; mx] ->
  snr_of_spot image noise z_radius yx_radius z_neigh yx_neigh [z; y; x]
  = Ok (spot_snr image noise z_radius yx_radius z_neigh yx_neigh mz my mx
          [z; y; x]).
Proof.
  intros Hsh. unfold snr_of_spot, spot_snr, snr_ratio. rewrite Hsh. simpl.
  destruct ((z_neigh <=? z) && (z <=? Z.of_nat mz - z_neigh - 1)
            && ((yx_neigh <=? y) && (y <=? Z.of_nat my - yx_neigh - 1))
            && ((yx_neigh <=? x) && (x <=? Z.of_nat mx - yx_neigh - 1)));
    reflexivity.
Qed.

Lemma from_threshold_to_snr_values (image : ndarray float)
    (sigma : sigma_t) (mask : pyvalue) (threshold neighbor_factor : pynum)
    (mask_ : ndarray bool) (mz my mx : nat)
    (z_radius yx_radius z_neigh yx_neigh : Z) :
  shape image = [mz; my; mx] ->
  snr_mask image mask threshold = Ok mask_ ->
  snr_radii (sqrt_ndim image) sigma neighbor_factor
  = Ok (z_radius, yx_radius, z_neigh, yx_neigh) ->
  exists dilated,
    from_threshold_to_snr image sigma mask threshold neighbor_factor
    = Ok (map (spot_snr image (noise_volume image dilated)
                 z_radius yx_radius z_neigh yx_neigh mz my mx)
              (nonzero mask_)).
Proof.
  intros Hsh Hm Hr.
  pose proof (snr_mask_shape _ _ _ _ Hm) as Hshm.
  assert (Hfilt : exists dilated,
             maximum_filter bool_ltb mask_
               (SizeSeq [2 * z_radius + 1; 2 * yx_radius + 1; 2 * yx_radius + 1])
               (Constant false) = Ok dilated).
  { unfold maximum_filter, normalize_sequence, ndim.
    rewrite Hshm, Hsh. simpl. eauto. }
  destruct Hfilt as [dilated Hd]. exists dilated.
  assert (Hl : mapM (snr_of_spot image (noise_volume image dilated)
                       z_radius yx_radius z_neigh yx_neigh) (nonzero mask_)
               = Ok (map (spot_snr image (noise_volume image dilated)
                            z_radius yx_radius z_neigh yx_neigh mz my mx)
                         (nonzero mask_))).
  { apply mapM_Ok_map. intros row Hrow. apply in_nonzero in Hrow.
    destruct Hrow as [Hrow _]. rewrite Hshm, Hsh in Hrow.
    destruct (in_bounds_3d _ _ _ _ Hrow) as (z & y & x & ->).
    apply snr_of_spot_value. exact Hsh. }
  unfold from_threshold_to_snr. rewrite Hm.
  cbv beta iota delta [bind].
  destruct (nonzero mask_) as [|row rows] eqn:Espots; [reflexivity|].
  simpl length. simpl Nat.eqb. cbv beta iota zeta. rewrite Hr.
  cbv beta iota zeta. rewrite Hd. exact Hl.
Qed.

(** In a volume thinner, along some axis, than the noise window
    ([2 * radius + 1] pixels), every spot is too close to a face: the
    result is NaN for each of them. *)
Theorem from_threshold_to_snr_thin_volume (image : ndarray float)
    (sigma : sigma_t) (mask : pyvalue) (threshold neighbor_factor : pynum)
    (mask_ : ndarray bool) (mz my mx : nat)
    (z_radius yx_radius z_neigh yx_neigh : Z) :
  shape image = [mz; my; mx] ->
  snr_mask image mask threshold = Ok mask_ ->
  snr_radii (sqrt_ndim image) sigma neighbor_factor
  = Ok (z_radius, yx_radius, z_neigh, yx_neigh) ->
  Z.of_nat mz < 2 * z_neigh + 1 \/ Z.of_nat my < 2 * yx_neigh + 1
  \/ Z.of_nat mx < 2 * yx_neigh + 1 ->
  from_threshold_to_snr image sigma mask threshold neighbor_factor
  = Ok (map (fun _ => nan) (nonzero mask_)).
Proof.
  intros Hsh Hm Hr Hthin.
  destruct (from_threshold_to_snr_values image sigma mask threshold
              neighbor_factor mask_ mz my mx z_radius yx_radius z_neigh
              yx_neigh Hsh Hm Hr) as (dilated & ->).
  f_equal. apply map_ext_in. intros row Hrow. unfold spot_snr.
  destruct row as [|z [|y [|x [|]]]]; try reflexivity.
  destruct ((z_neigh <=? z) && (z <=? Z.of_nat mz - z_neigh - 1)
            && ((yx_neigh <=? y) && (y <=? Z.of_nat my - yx_neigh - 1))
            && ((yx_neigh <=? x) && (x <=? Z.of_nat mx - yx_neigh - 1)))
    eqn:E; [|reflexivity].
  rewrite !andb_true_iff, !Z.leb_le in E. lia.
Qed.

Lemma from_threshold_to_snr_thin_volume_witness :
  from_threshold_to_snr demo_cube (SigmaTuple [PyFloat 1; PyFloat 1])
    (VArray (all_true demo_cube)) (PyInt 10) (PyInt 3)
  = Ok (map (fun _ => nan) (nonzero demo_thresholded)).
Proof.
  apply (from_threshold_to_snr_thin_volume demo_cube
           (SigmaTuple [PyFloat 1; PyFloat 1]) (VArray (all_true demo_cube))
           (PyInt 10) (PyInt 3) demo_thresholded 3 3 3 1 1 5 5);
    try (vm_compute; reflexivity).
  left. simpl. lia.
Defined.

(** ** A noise window no wider than the signal window *)

Lemma py_slice_inside (n start stop : Z) :
  0 <= start -> start <= stop -> stop <= n ->
  py_slice n start stop
  = map (fun k => start + Z.of_nat k) (seq 0 (Z.to_nat (stop - start))).
Proof.
  intros H0 H1 H2. unfold py_slice, slice_bound.
  destruct (Z.ltb_spec start 0); [lia|].
  destruct (Z.ltb_spec stop 0); [lia|].
  rewrite !Z.min_l by lia. reflexivity.
Qed.

Lemma py_slice_length (n start stop : Z) :
  0 <= start -> start <= stop -> stop <= n ->
  Z.of_nat (length (py_slice n start stop)) = stop - start.
Proof.
  intros H0 H1 H2. rewrite py_slice_inside by assumption.
  rewrite length_map, length_seq. lia.
Qed.

Lemma memZ_whole (len stop i : Z) :
  0 <= i < len -> len <= stop -> memZ i (py_slice len 0 stop) = true.
Proof.
  intros Hi Hstop. unfold py_slice, slice_bound. simpl.
  destruct (Z.ltb_spec stop 0); [lia|].
  rewrite Z.min_l, Z.min_r by lia. unfold memZ.
  apply existsb_exists. exists i. split; [|apply Z.eqb_refl].
  apply in_map_iff. exists (Z.to_nat i). split; [lia|].
  apply in_seq. lia.
Qed.

Lemma in_positions {A : Type} (l : list A) (i : Z) (a : A) :
  In (i, a) (combine (map Z.of_nat (seq 0 (length l))) l) ->
  0 <= i < Z.of_nat (length l).
Proof.
  intros H. apply in_combine_l in H. apply in_map_iff in H.
  destruct H as (k & <- & Hk). apply in_seq in Hk. lia.
Qed.

(** With equal radii the blanked block is the whole noise window. *)
Lemma local_noise_values_blank (noise : ndarray float)
    (z y x z_radius yx_radius max_z max_y max_x : Z) :
  0 <= z_radius -> 0 <= yx_radius ->
  z_radius <= z <= max_z - z_radius - 1 ->
  yx_radius <= y <= max_y - yx_radius - 1 ->
  yx_radius <= x <= max_x - yx_radius - 1 ->
  forall v,
    In v (local_noise_values noise z y x z_radius yx_radius
            z_radius yx_radius max_z max_y max_x) ->
    v = nan.
Proof.
  intros Hzr Hyxr Hz Hy Hx v. unfold local_noise_values.
  rewrite !Z.sub_diag.
  set (sz := py_slice max_z (z - z_radius) (z + z_radius + 1)).
  set (sy := py_slice max_y (y - yx_radius) (y + yx_radius + 1)).
  set (sx := py_slice max_x (x - yx_radius) (x + yx_radius + 1)).
  assert (Lz : Z.of_nat (length sz) = z_radius + z_radius + 1)
    by (unfold sz; rewrite py_slice_length; lia).
  assert (Ly : Z.of_nat (length sy) = yx_radius + yx_radius + 1)
    by (unfold sy; rewrite py_slice_length; lia).
  assert (Lx : Z.of_nat (length sx) = yx_radius + yx_radius + 1)
    by (unfold sx; rewrite py_slice_length; lia).
  intros Hv. apply in_flat_map in Hv. destruct Hv as ([i z'] & Hi & Hv).
  apply in_flat_map in Hv. destruct Hv as ([j y'] & Hj & Hv).
  apply in_map_iff in Hv. destruct Hv as ([k x'] & Hv & Hk).
  apply in_positions in Hi, Hj, Hk.
  rewrite !memZ_whole in Hv by lia. simpl in Hv. symmetry. exact Hv.
Qed.

Lemma nanstd_all_nan (l : list float) :
  (forall v, In v l -> v = nan) -> nanstd l = nan.
Proof.
  intros H. unfold nanstd, non_nan. rewrite filter_none; [reflexivity|].
  intros v Hv. rewrite (H v Hv). reflexivity.
Qed.

Lemma div_nan_r (x : float) : PrimFloat.is_nan (PrimFloat.div x nan) = true.
Proof.
  unfold PrimFloat.is_nan. rewrite eqb_spec, div_spec.
  replace (Prim2SF nan) with S754_nan by (vm_compute; reflexivity).
  unfold SF64div, SFdiv. destruct (Prim2SF x); reflexivity.
Qed.

(** When the noise radius equals the signal radius on both kinds of axis
    (neighbour factor 1, say), the central block that is blanked is the
    whole noise window, and every value returned is NaN. *)
Theorem from_threshold_to_snr_no_neighbourhood (image : ndarray float)
    (sigma : sigma_t) (mask : pyvalue) (threshold neighbor_factor : pynum)
    (mask_ : ndarray bool) (mz my mx : nat) (z_radius yx_radius : Z) :
  shape image = [mz; my; mx] ->
  snr_mask image mask threshold = Ok mask_ ->
  snr_radii (sqrt_ndim image) sigma neighbor_factor
  = Ok (z_radius, yx_radius, z_radius, yx_radius) ->
  0 <= z_radius -> 0 <= yx_radius ->
  exists l,
    from_threshold_to_snr image sigma mask threshold neighbor_factor = Ok l
    /\ length l = length (nonzero mask_)
    /\ Forall (fun v => PrimFloat.is_nan v = true) l.
Proof.
  intros Hsh Hm Hr Hzr Hyxr.
  destruct (from_threshold_to_snr_values image sigma mask threshold
              neighbor_factor mask_ mz my mx z_radius yx_radius z_radius
              yx_radius Hsh Hm Hr) as (dilated & ->).
  eexists. split; [reflexivity|]. split; [apply length_map|].
  apply Forall_forall. intros v Hv. apply in_map_iff in Hv.
  destruct Hv as (row & <- & _). unfold spot_snr.
  destruct row as [|z [|y [|x [|]]]]; try reflexivity.
  destruct ((z_radius <=? z) && (z <=? Z.of_nat mz - z_radius - 1)
            && ((yx_radius <=? y) && (y <=? Z.of_nat my - yx_radius - 1))
            && ((yx_radius <=? x) && (x <=? Z.of_nat mx - yx_radius - 1)))
    eqn:E; [|reflexivity].
  rewrite !andb_true_iff, !Z.leb_le in E.
  unfold snr_ratio. rewrite nanstd_all_nan; [apply div_nan_r|].
  apply local_noise_values_blank; lia.
Qed.

Lemma from_threshold_to_snr_no_neighbourhood_witness :
  exists l,
    from_threshold_to_snr demo_cube demo_sigma (VArray (all_true demo_cube))
      (PyInt 10) (PyInt 1) = Ok l
    /\ length l = length (nonzero demo_thresholded)
    /\ Forall (fun v => PrimFloat.is_nan v = true) l.
Proof.
  apply (from_threshold_to_snr_no_neighbourhood demo_cube demo_sigma
           (VArray (all_true demo_cube)) (PyInt 10) (PyInt 1)
           demo_thresholded 3 3 3 0 0);
    try (vm_compute; reflexivity); lia.
Defined.

(** ** An image without a pixel *)

Lemma indices_zero (sh : list nat) : In 0%nat sh -> indices sh = [].
Proof.
  induction sh as [|n sh IH]; simpl; [tauto|]. intros [->|H].
  - reflexivity.
  - rewrite (IH H). generalize 0%nat.
    induction n as [|n IHn]; intros start; simpl; auto.
Qed.

(** On a zero-size image an int threshold gives the empty list, while a
    float threshold raises: it is scaled by the maximum of the image, which
    an empty array does not have. *)
Theorem from_threshold_to_snr_empty_image (image : ndarray float)
    (sigma : sigma_t) (m : ndarray bool) (neighbor_factor : pynum) :
  In 0%nat (shape image) -> shape m = shape image ->
  (forall t : Z,
     from_threshold_to_snr image sigma (VArray m) (PyInt t) neighbor_factor
     = Ok [])
  /\ (forall f : float,
        from_threshold_to_snr image sigma (VArray m) (PyFloat f)
          neighbor_factor = Err ValueError).
Proof.
  intros Hzero Hsh. pose proof (indices_zero _ Hzero) as Hidx. split.
  - intros t. unfold from_threshold_to_snr, snr_mask. simpl.
    rewrite arr_zip_same by (simpl; exact Hsh). simpl.
    unfold nonzero. simpl. rewrite Hsh, Hidx. reflexivity.
  - intros f. unfold from_threshold_to_snr, snr_mask, arr_max.
    rewrite Hidx. reflexivity.
Qed.

Lemma from_threshold_to_snr_empty_image_witness :
  (forall t : Z,
     from_threshold_to_snr demo_empty_cube demo_sigma
       (VArray (all_true demo_empty_cube)) (PyInt t) (PyInt 3) = Ok [])
  /\ (forall f : float,
        from_threshold_to_snr demo_empty_cube demo_sigma
          (VArray (all_true demo_empty_cube)) (PyFloat f) (PyInt 3)
        = Err ValueError).
Proof.
  apply (from_threshold_to_snr_empty_image demo_empty_cube demo_sigma
           (all_true demo_empty_cube) (PyInt 3)).
  - simpl. auto.
  - reflexivity.
Defined.

(** ** A distance that is not an integer *)

